(** * Broad-phase collision subsystem of ReactPhysics3D

    A shallow embedding of [BroadPhaseSystem.cpp] and [ProxyShape.cpp].

    The two translation units are stateful C++: every method reaches, through
    [mBody->mWorld], the component columns, the dynamic AABB tree and the
    bodies.  The embedding threads one [World] value through a small
    state/error/trace monad [M]:
    - the state is the [World] (component columns, transforms, bodies,
      broad-phase system);
    - an [assert] that does not hold, or an array read out of range, aborts the
      run ([None]);
    - every call that leaves the two translation units towards a collaborator
      (collision shape, dynamic AABB tree update, narrow phase) is appended to a
      trace of [Call]s, so that "is invoked" and "is never invoked" can be
      stated.

    The mathematics classes, the collision shapes, the dynamic AABB tree and the
    raycast test are declared in headers that are not part of the sources at
    hand; they are interfaces here (type classes), and every result below holds
    for all their implementations. *)

From stdpp Require Import gmap list sorting.
From Stdlib Require Import ZArith PrimFloat.

(** ** Scalar types (configuration.h) *)

(** [decimal] is an IEEE floating point number ([float] or [double] by
    configuration); the only literal used, -1.0, and its sign are the same in
    both formats. *)
Abbreviation decimal := float.
(** [Entity] is an opaque identifier; [bodyindex] an unsigned index. *)
Abbreviation Entity := N.
Abbreviation bodyindex := N.
(** A [CollisionBody*]: the address of a body object. *)
Abbreviation CollisionBodyPtr := N.

(** [uint32] arithmetic wraps around. *)
Definition uint32_wrap (n : N) : N := (n mod 2 ^ 32)%N.

(** ** Interfaces of the collaborators *)

(** mathematics/ : vectors, rigid transforms and boxes over [decimal]. *)
Class Mathematics := {
  Vector3 : Type;
  Quaternion : Type;
  Transform : Type;
  AABB : Type;
  (** [Vector3::zero()] *)
  Vector3_zero : Vector3;
  (** [Vector3::normalize()] *)
  Vector3_normalize : Vector3 → Vector3;
  (** [Quaternion::operator*(const Vector3&)] *)
  Quaternion_mulVector : Quaternion → Vector3 → Vector3;
  (** [Transform::operator*(const Transform&)] *)
  Transform_mul : Transform → Transform → Transform;
  (** [Transform::operator*(const Vector3&)] *)
  Transform_mulVector : Transform → Vector3 → Vector3;
  Transform_getInverse : Transform → Transform;
  Transform_getOrientation : Transform → Quaternion;
  (** [AABB::testCollision(const AABB&)] *)
  AABB_testCollision : AABB → AABB → bool;
}.

(** The proxy-shape view object: [mEntity] and [mBody]. *)
Record ProxyShape := {
  mEntity : Entity;
  mBody : CollisionBodyPtr;
}.

(** The part of a body object the two translation units read or write. *)
Record CollisionBody := {
  mID : bodyindex;
  mBodyEntity : Entity;
  mIsActive : bool;
  mIsSleeping : bool;
}.

Record Ray `{Mathematics} := {
  point1 : Vector3;
  point2 : Vector3;
  maxFraction : decimal;
}.

Record RaycastInfo `{Mathematics} := {
  worldPoint : Vector3;
  worldNormal : Vector3;
  hitFraction : decimal;
}.

(** collision/shapes/CollisionShape.h : the virtual methods used here.
    [CollisionShape_raycast] is [const]; it returns the hit flag and the
    raycast-info record as it leaves it. *)
Class CollisionShapeInterface `{Mathematics} := {
  CollisionShape : Type;
  CollisionShape_computeAABB : CollisionShape → Transform → AABB;
  CollisionShape_raycast :
    CollisionShape → Ray → RaycastInfo → ProxyShape → bool * RaycastInfo;
}.

(** collision/broadphase/DynamicAABBTree.h : the methods used here.
    [reportAllShapesOverlappingWithAABB] gives the node ids in the order in
    which the tree hands them to the overlap callback; [updateObject] gives the
    re-insertion flag and the tree after the update. *)
Class DynamicAABBTreeInterface `{Mathematics} := {
  DynamicAABBTree : Type;
  getFatAABB : DynamicAABBTree → Z → AABB;
  getNodeDataPointer : DynamicAABBTree → Z → ProxyShape;
  reportAllShapesOverlappingWithAABB : DynamicAABBTree → AABB → list Z;
  updateObject : DynamicAABBTree → Z → AABB → Vector3 → bool * DynamicAABBTree;
}.

(** collision/CollisionDetection.h : [RaycastTest::raycastAgainstShape]
    returns the hit fraction and may change the test object. *)
Class RaycastTestInterface `{Mathematics} := {
  RaycastTest : Type;
  raycastAgainstShape : RaycastTest → ProxyShape → Ray → decimal * RaycastTest;
}.

(** collision/broadphase/DynamicAABBTree.h : the methods that insert and
    remove a leaf.  [addObject] gives the id of the new node and the tree with
    the leaf in it; [removeObject] the tree without the leaf. *)
Class DynamicAABBTreeLeaves `{Trees : DynamicAABBTreeInterface} := {
  addObject : DynamicAABBTree → AABB → ProxyShape → Z * DynamicAABBTree;
  removeObject : DynamicAABBTree → Z → DynamicAABBTree;
}.

(** collision/shapes/CollisionShape.h : [testPointInside], a [const]
    virtual method. *)
Class CollisionShapePointTest `{Shapes : CollisionShapeInterface} := {
  CollisionShape_testPointInside :
    CollisionShape → Vector3 → ProxyShape → bool;
}.

(** ** Data of the broad phase *)

Record BroadPhasePair := {
  collisionShape1ID : Z;
  collisionShape2ID : Z;
}.

Global Instance BroadPhasePair_eq_dec : EqDecision BroadPhasePair.
Proof. solve_decision. Defined.

(** Modelled from the spec: [BroadPhasePair::smallerThan] is declared in
    BroadPhaseSystem.h, which is missing; the spec gives the ordering as
    lexicographic on the two ids. *)
Definition smallerThan (pair1 pair2 : BroadPhasePair) : bool :=
  if (collisionShape1ID pair1 <? collisionShape1ID pair2)%Z then true
  else if (collisionShape1ID pair1 =? collisionShape1ID pair2)%Z
       then (collisionShape2ID pair1 <? collisionShape2ID pair2)%Z
       else false.

(** [std::sort(first, last, comp)] of the C++ standard library, as an insertion
    sort.  Only its contract is used: the result is a permutation ordered by
    [comp].  For [smallerThan] that result is unique (see
    [std_sort_smallerThan_unique]), so the algorithm chosen does not matter. *)
Fixpoint sort_insert {A} (comp : A → A → bool) (x : A) (l : list A) : list A :=
  match l with
  | [] => [x]
  | y :: l' => if comp x y then x :: l else y :: sort_insert comp x l'
  end.

Definition std_sort {A} (comp : A → A → bool) (l : list A) : list A :=
  foldr (sort_insert comp) [] l.

Section Model.
Context `{Math : Mathematics} `{Shapes : !CollisionShapeInterface}.
Context `{Trees : !DynamicAABBTreeInterface}.
Context `{Tests : !RaycastTestInterface}.

(** Calls that leave the two translation units. *)
Inductive Call :=
| Call_computeAABB (shape : CollisionShape) (transform : Transform)
| Call_updateObject (nodeID : Z) (aabb : AABB) (displacement : Vector3)
| Call_broadPhaseNotifyOverlappingPair (shape1 shape2 : ProxyShape)
| Call_raycastAgainstShape (shape : ProxyShape) (ray : Ray)
| Call_CollisionShape_raycast
    (shape : CollisionShape) (ray : Ray) (proxyShape : ProxyShape).

(** The proxy-shape component columns ([ProxyShapeComponents], seen through the
    members and accessors the two translation units use).  Rows
    [0 .. nbEnabledComponents - 1] are the enabled ones. *)
Record ProxyShapeComponents := {
  nbComponents : N;
  nbEnabledComponents : N;
  mMapEntityToComponentIndex : gmap Entity N;
  mBodiesEntities : list Entity;
  mCollisionShapes : list CollisionShape;
  mLocalToBodyTransforms : list Transform;
  mBroadPhaseIds : list Z;
  mCollisionCategoryBits : list N;
  mCollideWithMaskBits : list N;
}.

(** The members of [BroadPhaseSystem] that carry state. *)
Record BroadPhaseSystem := {
  mDynamicAABBTree : DynamicAABBTree;
  mMovedShapes : list Z;
  mPotentialPairs : list BroadPhasePair;
}.

(** Everything reachable from [mBody->mWorld].  [bodies] is the memory holding
    the body objects; [mTransformComponents] is
    [TransformComponents::getTransform]. *)
Record World := {
  bodies : CollisionBodyPtr → CollisionBody;
  mProxyShapesComponents : ProxyShapeComponents;
  mTransformComponents : Entity → Transform;
  mBroadPhaseSystem : BroadPhaseSystem;
}.

(** ** The monad *)

Definition M (A : Type) : Type := World → option (A * World * list Call).

Global Instance M_ret : MRet M := λ A a w, Some (a, w, []).

Global Instance M_bind : MBind M := λ A B f m w,
  match m w with
  | Some (a, w1, calls1) =>
      match f a w1 with
      | Some (b, w2, calls2) => Some (b, w2, calls1 ++ calls2)
      | None => None
      end
  | None => None
  end.

(** [assert(b)] *)
Definition Assert (b : bool) : M unit :=
  λ w, if b then Some (tt, w, []) else None.

Definition gets {A} (f : World → A) : M A := λ w, Some (f w, w, []).
Definition modify (f : World → World) : M unit := λ w, Some (tt, f w, []).
Definition call (c : Call) : M unit := λ w, Some (tt, w, [c]).
(** An array read [column[i]]; out of range is undefined in C++. *)
Definition read {A} (column : World → list A) (i : N) : M A :=
  λ w, match column w !! N.to_nat i with
       | Some a => Some (a, w, [])
       | None => None
       end.

(** ** Field updates *)

Definition set_mBroadPhaseSystem (b : BroadPhaseSystem) (w : World) : World :=
  {| bodies := bodies w;
     mProxyShapesComponents := mProxyShapesComponents w;
     mTransformComponents := mTransformComponents w;
     mBroadPhaseSystem := b |}.

Definition set_mProxyShapesComponents (c : ProxyShapeComponents) (w : World)
  : World :=
  {| bodies := bodies w;
     mProxyShapesComponents := c;
     mTransformComponents := mTransformComponents w;
     mBroadPhaseSystem := mBroadPhaseSystem w |}.

Definition set_bodies (h : CollisionBodyPtr → CollisionBody) (w : World)
  : World :=
  {| bodies := h;
     mProxyShapesComponents := mProxyShapesComponents w;
     mTransformComponents := mTransformComponents w;
     mBroadPhaseSystem := mBroadPhaseSystem w |}.

Definition set_mDynamicAABBTree (t : DynamicAABBTree) (b : BroadPhaseSystem)
  : BroadPhaseSystem :=
  {| mDynamicAABBTree := t;
     mMovedShapes := mMovedShapes b;
     mPotentialPairs := mPotentialPairs b |}.

Definition set_mMovedShapes (l : list Z) (b : BroadPhaseSystem)
  : BroadPhaseSystem :=
  {| mDynamicAABBTree := mDynamicAABBTree b;
     mMovedShapes := l;
     mPotentialPairs := mPotentialPairs b |}.

Definition set_mPotentialPairs (l : list BroadPhasePair) (b : BroadPhaseSystem)
  : BroadPhaseSystem :=
  {| mDynamicAABBTree := mDynamicAABBTree b;
     mMovedShapes := mMovedShapes b;
     mPotentialPairs := l |}.

Definition modifyBroadPhase (f : BroadPhaseSystem → BroadPhaseSystem) : M unit :=
  modify (λ w, set_mBroadPhaseSystem (f (mBroadPhaseSystem w)) w).

End Model.

(** ** ProxyShapeComponents and Body accessors *)

Module ProxyShapeComponents.
Section Methods.
Context `{Math : Mathematics} `{Shapes : !CollisionShapeInterface}.
Context `{Trees : !DynamicAABBTreeInterface}.
Context `{Tests : !RaycastTestInterface}.

(** Modelled from the spec: [getNbComponents] and [getNbEnabledComponents] are
    defined in Components.h, which is missing; the spec has the store expose
    its total count and its enabled count. *)
Definition getNbComponents : M N :=
  gets (λ w, nbComponents (mProxyShapesComponents w)).

Definition getNbEnabledComponents : M N :=
  gets (λ w, nbEnabledComponents (mProxyShapesComponents w)).

(** [mMapEntityToComponentIndex[entity]], preceded by the [containsKey]
    assertion. *)
Definition componentIndex (proxyShapeEntity : Entity) : M N :=
  λ w, match mMapEntityToComponentIndex (mProxyShapesComponents w)
             !! proxyShapeEntity with
       | Some i => Some (i, w, [])
       | None => None
       end.

(** An array write [column[i] = v]; out of range is undefined in C++. *)
Definition write {A} (column : ProxyShapeComponents → list A)
    (store : list A → ProxyShapeComponents → ProxyShapeComponents)
    (i : N) (v : A) : M unit :=
  λ w, let c := mProxyShapesComponents w in
       if decide (N.to_nat i < length (column c))%nat
       then Some (tt, set_mProxyShapesComponents
                        (store (<[N.to_nat i := v]> (column c)) c) w, [])
       else None.

Definition set_mLocalToBodyTransforms (l : list Transform)
    (c : ProxyShapeComponents) : ProxyShapeComponents :=
  {| nbComponents := nbComponents c;
     nbEnabledComponents := nbEnabledComponents c;
     mMapEntityToComponentIndex := mMapEntityToComponentIndex c;
     mBodiesEntities := mBodiesEntities c;
     mCollisionShapes := mCollisionShapes c;
     mLocalToBodyTransforms := l;
     mBroadPhaseIds := mBroadPhaseIds c;
     mCollisionCategoryBits := mCollisionCategoryBits c;
     mCollideWithMaskBits := mCollideWithMaskBits c |}.

Definition set_mCollisionCategoryBits (l : list N)
    (c : ProxyShapeComponents) : ProxyShapeComponents :=
  {| nbComponents := nbComponents c;
     nbEnabledComponents := nbEnabledComponents c;
     mMapEntityToComponentIndex := mMapEntityToComponentIndex c;
     mBodiesEntities := mBodiesEntities c;
     mCollisionShapes := mCollisionShapes c;
     mLocalToBodyTransforms := mLocalToBodyTransforms c;
     mBroadPhaseIds := mBroadPhaseIds c;
     mCollisionCategoryBits := l;
     mCollideWithMaskBits := mCollideWithMaskBits c |}.

Definition set_mCollideWithMaskBits (l : list N)
    (c : ProxyShapeComponents) : ProxyShapeComponents :=
  {| nbComponents := nbComponents c;
     nbEnabledComponents := nbEnabledComponents c;
     mMapEntityToComponentIndex := mMapEntityToComponentIndex c;
     mBodiesEntities := mBodiesEntities c;
     mCollisionShapes := mCollisionShapes c;
     mLocalToBodyTransforms := mLocalToBodyTransforms c;
     mBroadPhaseIds := mBroadPhaseIds c;
     mCollisionCategoryBits := mCollisionCategoryBits c;
     mCollideWithMaskBits := l |}.

(** The accessors below belong to ProxyShapeComponents.h, which is missing.
    The spec describes dense columns indexed by the row that the entity map
    gives, and attribute reads and writes forwarded to the column. *)

(** Modelled from the spec: [ProxyShapeComponents::getBroadPhaseId], missing;
    the read of the entity's row in the node-id column. *)
Definition getBroadPhaseId (proxyShapeEntity : Entity) : M Z :=
  i ← componentIndex proxyShapeEntity;
  read (λ w, mBroadPhaseIds (mProxyShapesComponents w)) i.

(** Modelled from the spec: [ProxyShapeComponents::getCollisionShape],
    missing; the read of the entity's row in the collision-shape column. *)
Definition getCollisionShape (proxyShapeEntity : Entity) : M CollisionShape :=
  i ← componentIndex proxyShapeEntity;
  read (λ w, mCollisionShapes (mProxyShapesComponents w)) i.

(** Modelled from the spec: [ProxyShapeComponents::getLocalToBodyTransform],
    missing; the read of the entity's row in the transform column. *)
Definition getLocalToBodyTransform (proxyShapeEntity : Entity) : M Transform :=
  i ← componentIndex proxyShapeEntity;
  read (λ w, mLocalToBodyTransforms (mProxyShapesComponents w)) i.

(** Modelled from the spec: [ProxyShapeComponents::getCollisionCategoryBits],
    missing; the read of the entity's row in the category-bits column. *)
Definition getCollisionCategoryBits (proxyShapeEntity : Entity) : M N :=
  i ← componentIndex proxyShapeEntity;
  read (λ w, mCollisionCategoryBits (mProxyShapesComponents w)) i.

(** Modelled from the spec: [ProxyShapeComponents::getCollideWithMaskBits],
    missing; the read of the entity's row in the mask-bits column. *)
Definition getCollideWithMaskBits (proxyShapeEntity : Entity) : M N :=
  i ← componentIndex proxyShapeEntity;
  read (λ w, mCollideWithMaskBits (mProxyShapesComponents w)) i.

(** Modelled from the spec: [ProxyShapeComponents::setLocalToBodyTransform],
    missing; the write of the entity's row in the transform column. *)
Definition setLocalToBodyTransform (proxyShapeEntity : Entity)
    (transform : Transform) : M unit :=
  i ← componentIndex proxyShapeEntity;
  write mLocalToBodyTransforms set_mLocalToBodyTransforms i transform.

(** Modelled from the spec: [ProxyShapeComponents::setCollisionCategoryBits],
    missing; the write of the entity's row in the category-bits column. *)
Definition setCollisionCategoryBits (proxyShapeEntity : Entity)
    (collisionCategoryBits : N) : M unit :=
  i ← componentIndex proxyShapeEntity;
  write mCollisionCategoryBits set_mCollisionCategoryBits i
        collisionCategoryBits.

(** Modelled from the spec: [ProxyShapeComponents::setCollideWithMaskBits],
    missing; the write of the entity's row in the mask-bits column. *)
Definition setCollideWithMaskBits (proxyShapeEntity : Entity)
    (collideWithMaskBits : N) : M unit :=
  i ← componentIndex proxyShapeEntity;
  write mCollideWithMaskBits set_mCollideWithMaskBits i collideWithMaskBits.

Definition set_mBroadPhaseIds (l : list Z)
    (c : ProxyShapeComponents) : ProxyShapeComponents :=
  {| nbComponents := nbComponents c;
     nbEnabledComponents := nbEnabledComponents c;
     mMapEntityToComponentIndex := mMapEntityToComponentIndex c;
     mBodiesEntities := mBodiesEntities c;
     mCollisionShapes := mCollisionShapes c;
     mLocalToBodyTransforms := mLocalToBodyTransforms c;
     mBroadPhaseIds := l;
     mCollisionCategoryBits := mCollisionCategoryBits c;
     mCollideWithMaskBits := mCollideWithMaskBits c |}.

(** Modelled from the spec: [ProxyShapeComponents::setBroadPhaseId], missing;
    the write of the entity's row in the node-id column. *)
Definition setBroadPhaseId (proxyShapeEntity : Entity) (broadPhaseId : Z)
  : M unit :=
  i ← componentIndex proxyShapeEntity;
  write mBroadPhaseIds set_mBroadPhaseIds i broadPhaseId.

End Methods.
End ProxyShapeComponents.

Module Body.
Section Methods.
Context `{Math : Mathematics} `{Shapes : !CollisionShapeInterface}.
Context `{Trees : !DynamicAABBTreeInterface}.
Context `{Tests : !RaycastTestInterface}.

(** Modelled from the spec: [getId], [getEntity] and [isActive] are defined in
    Body.h, which is missing; the spec speaks of the id of a body, of its
    entity and of its being active, which are fields of the body here. *)
Definition getId (body : CollisionBodyPtr) : M bodyindex :=
  gets (λ w, mID (bodies w body)).

Definition getEntity (body : CollisionBodyPtr) : M Entity :=
  gets (λ w, mBodyEntity (bodies w body)).

Definition isActive (body : CollisionBodyPtr) : M bool :=
  gets (λ w, mIsActive (bodies w body)).

(** Modelled from the spec: [Body::setIsSleeping] is defined in Body.cpp, which
    is missing; the spec says the call with [false] wakes the body, that is,
    clears its sleeping flag. *)
Definition setIsSleeping (body : CollisionBodyPtr) (isSleeping : bool)
  : M unit :=
  modify (λ w, set_bodies
    (λ p, if decide (p = body)
          then {| mID := mID (bodies w p);
                  mBodyEntity := mBodyEntity (bodies w p);
                  mIsActive := mIsActive (bodies w p);
                  mIsSleeping := isSleeping |}
          else bodies w p) w).

End Methods.
End Body.

(** ** BroadPhaseSystem.cpp *)

Module AABBOverlapCallback.

(** Modelled from the spec: [LinkedList<int>::insert] is declared in
    LinkedList.h, which is missing; the spec says the reported leaves are
    appended to the scratch list. *)
Definition notifyOverlappingNode (nodeId : Z) (mOverlappingNodes : list Z)
  : list Z :=
  mOverlappingNodes ++ [nodeId].

End AABBOverlapCallback.

Module BroadPhaseSystem.
Section Methods.
Context `{Math : Mathematics} `{Shapes : !CollisionShapeInterface}.
Context `{Trees : !DynamicAABBTreeInterface}.
Context `{Tests : !RaycastTestInterface}.

Definition getTree : M DynamicAABBTree :=
  gets (λ w, mDynamicAABBTree (mBroadPhaseSystem w)).

(** Modelled from the spec: [addMovedCollisionShape] is defined in
    BroadPhaseSystem.h, which is missing; the spec says the node id is recorded
    in the moved-shape collection, which the reference keeps as an ordered
    sequence that may hold duplicates. *)
Definition addMovedCollisionShape (broadPhaseID : Z) : M unit :=
  modifyBroadPhase (λ b, set_mMovedShapes (mMovedShapes b ++ [broadPhaseID]) b).

(** [ProxyShape::getBroadPhaseId] (ProxyShape.cpp), used by
    [testOverlappingShapes]. *)
Definition ProxyShape_getBroadPhaseId (this : ProxyShape) : M Z :=
  ProxyShapeComponents.getBroadPhaseId (mEntity this).

Definition testOverlappingShapes (shape1 shape2 : ProxyShape) : M bool :=
  id1 ← ProxyShape_getBroadPhaseId shape1;
  if (id1 =? -1)%Z then mret false else
  id2 ← ProxyShape_getBroadPhaseId shape2;
  if (id2 =? -1)%Z then mret false else
  tree ← getTree;
  id1 ← ProxyShape_getBroadPhaseId shape1;
  let aabb1 := getFatAABB tree id1 in
  id2 ← ProxyShape_getBroadPhaseId shape2;
  let aabb2 := getFatAABB tree id2 in
  mret (AABB_testCollision aabb1 aabb2).

Definition updateProxyShapeInternal (broadPhaseId : Z) (aabb : AABB)
    (displacement : Vector3) : M unit :=
  Assert (0 <=? broadPhaseId)%Z;;
  tree ← getTree;
  call (Call_updateObject broadPhaseId aabb displacement);;
  let '(hasBeenReInserted, tree') :=
    updateObject tree broadPhaseId aabb displacement in
  modifyBroadPhase (set_mDynamicAABBTree tree');;
  if hasBeenReInserted then addMovedCollisionShape broadPhaseId else mret tt.

(** The body of the [for] loop of [updateProxyShapesComponents]. *)
Definition updateProxyShapesComponent (i : N) : M unit :=
  broadPhaseId ← read (λ w, mBroadPhaseIds (mProxyShapesComponents w)) i;
  if negb (broadPhaseId =? -1)%Z then
    bodyEntity ← read (λ w, mBodiesEntities (mProxyShapesComponents w)) i;
    transform ← gets (λ w, mTransformComponents w bodyEntity);
    let displacement := Vector3_zero in
    shape ← read (λ w, mCollisionShapes (mProxyShapesComponents w)) i;
    localToBody ←
      read (λ w, mLocalToBodyTransforms (mProxyShapesComponents w)) i;
    call (Call_computeAABB shape (Transform_mul transform localToBody));;
    let aabb :=
      CollisionShape_computeAABB shape (Transform_mul transform localToBody) in
    updateProxyShapeInternal broadPhaseId aabb displacement
  else mret tt.

(** [for (uint32 i = startIndex; i < endIndex; i++)], with [count] the number
    of iterations left. *)
Fixpoint updateProxyShapesLoop (count : nat) (i : N) : M unit :=
  match count with
  | O => mret tt
  | S count' =>
      updateProxyShapesComponent i;;
      updateProxyShapesLoop count' (uint32_wrap (i + 1))
  end.

Definition updateProxyShapesComponents (startIndex endIndex : N) : M unit :=
  nb ← ProxyShapeComponents.getNbComponents;
  Assert (startIndex <=? endIndex)%N;;
  Assert (startIndex <? nb)%N;;
  Assert (endIndex <=? nb)%N;;
  nbEnabled ← ProxyShapeComponents.getNbEnabledComponents;
  let startIndex := N.min startIndex nbEnabled in
  let endIndex := N.min endIndex nbEnabled in
  updateProxyShapesLoop (N.to_nat (endIndex - startIndex)) startIndex.

Definition updateProxyShape (proxyShapeEntity : Entity) : M unit :=
  index ← ProxyShapeComponents.componentIndex proxyShapeEntity;
  updateProxyShapesComponents index (uint32_wrap (index + 1)).

Definition updateProxyShapes : M unit :=
  nbEnabled ← ProxyShapeComponents.getNbEnabledComponents;
  updateProxyShapesComponents 0 nbEnabled.

Definition BroadPhasePair_ctor (shape1ID shape2ID : Z) : BroadPhasePair :=
  {| collisionShape1ID := shape1ID; collisionShape2ID := shape2ID |}.

(** The [while] loop of [addOverlappingNodes] over the linked list. *)
Fixpoint addOverlappingNodesLoop (referenceNodeId : Z) (elem : list Z)
    (potentialPairs : list BroadPhasePair) : list BroadPhasePair :=
  match elem with
  | [] => potentialPairs
  | data :: next =>
      addOverlappingNodesLoop referenceNodeId next
        (if negb (referenceNodeId =? data)%Z
         then potentialPairs ++
              [BroadPhasePair_ctor (Z.min referenceNodeId data)
                                   (Z.max referenceNodeId data)]
         else potentialPairs)
  end.

Definition addOverlappingNodes (referenceNodeId : Z)
    (overlappingNodes : list Z) : M unit :=
  modifyBroadPhase (λ b,
    set_mPotentialPairs
      (addOverlappingNodesLoop referenceNodeId overlappingNodes
                               (mPotentialPairs b)) b).

(** The body of the loop over [mMovedShapes]; the scratch list
    [overlappingNodes] is empty at the start of every iteration, since it is
    reset at the end of the previous one. *)
Definition collectOverlappingNodes (shapeID : Z) : M unit :=
  if (shapeID =? -1)%Z then mret tt else
  tree ← getTree;
  let shapeAABB := getFatAABB tree shapeID in
  let overlappingNodes :=
    foldl (λ nodes nodeId,
             AABBOverlapCallback.notifyOverlappingNode nodeId nodes)
          [] (reportAllShapesOverlappingWithAABB tree shapeAABB) in
  addOverlappingNodes shapeID overlappingNodes.

Fixpoint forEach {A} (body : A → M unit) (l : list A) : M unit :=
  match l with
  | [] => mret tt
  | x :: l' => body x;; forEach body l'
  end.

(** The body of the outer [while] loop of [computeOverlappingPairs], up to the
    skipping of duplicates. *)
Definition notifyPair (p : BroadPhasePair) : M unit :=
  Assert (negb (collisionShape1ID p =? collisionShape2ID p)%Z);;
  tree ← getTree;
  let shape1 := getNodeDataPointer tree (collisionShape1ID p) in
  let shape2 := getNodeDataPointer tree (collisionShape2ID p) in
  id1 ← Body.getId (mBody shape1);
  id2 ← Body.getId (mBody shape2);
  if negb (id1 =? id2)%N
  then call (Call_broadPhaseNotifyOverlappingPair shape1 shape2)
  else mret tt.

(** The two nested [while] loops over the sorted buffer; [it] is the
    iterator, the inner [fix] the loop that skips the duplicates of [p]. *)
Fixpoint notifyUniquePairs (it : list BroadPhasePair) : M unit :=
  match it with
  | [] => mret tt
  | p :: it' =>
      notifyPair p;;
      (fix skip (it : list BroadPhasePair) : M unit :=
         match it with
         | [] => mret tt
         | nextPair :: it' =>
             if negb (collisionShape1ID nextPair =? collisionShape1ID p)%Z
                || negb (collisionShape2ID nextPair =? collisionShape2ID p)%Z
             then notifyUniquePairs it
             else skip it'
         end) it'
  end.

Definition computeOverlappingPairs : M unit :=
  modifyBroadPhase (set_mPotentialPairs []);;
  movedShapes ← gets (λ w, mMovedShapes (mBroadPhaseSystem w));
  forEach collectOverlappingNodes movedShapes;;
  modifyBroadPhase (set_mMovedShapes []);;
  modifyBroadPhase (λ b,
    set_mPotentialPairs (std_sort smallerThan (mPotentialPairs b)) b);;
  potentialPairs ← gets (λ w, mPotentialPairs (mBroadPhaseSystem w));
  notifyUniquePairs potentialPairs.

Context `{Leaves : !DynamicAABBTreeLeaves}.

(** Modelled from the spec: [removeMovedCollisionShape] is defined in
    BroadPhaseSystem.h, which is missing; the spec says the node id is removed
    from the moved-shape collection. *)
Definition removeMovedCollisionShape (broadPhaseID : Z) : M unit :=
  modifyBroadPhase (λ b,
    set_mMovedShapes (filter (λ m, m ≠ broadPhaseID) (mMovedShapes b)) b).

Definition addProxyCollisionShape (proxyShape : ProxyShape) (aabb : AABB)
  : M unit :=
  broadPhaseId ← ProxyShape_getBroadPhaseId proxyShape;
  Assert (broadPhaseId =? -1)%Z;;
  tree ← getTree;
  let '(nodeId, tree') := addObject tree aabb proxyShape in
  modifyBroadPhase (set_mDynamicAABBTree tree');;
  ProxyShapeComponents.setBroadPhaseId (mEntity proxyShape) nodeId;;
  broadPhaseId ← ProxyShape_getBroadPhaseId proxyShape;
  addMovedCollisionShape broadPhaseId.

Definition removeProxyCollisionShape (proxyShape : ProxyShape) : M unit :=
  broadPhaseId ← ProxyShape_getBroadPhaseId proxyShape;
  Assert (negb (broadPhaseId =? -1)%Z);;
  broadPhaseID ← ProxyShape_getBroadPhaseId proxyShape;
  ProxyShapeComponents.setBroadPhaseId (mEntity proxyShape) (-1);;
  tree ← getTree;
  modifyBroadPhase (set_mDynamicAABBTree (removeObject tree broadPhaseID));;
  removeMovedCollisionShape broadPhaseID.

End Methods.
End BroadPhaseSystem.

Module CollisionDetection.
Section Methods.
Context `{Math : Mathematics} `{Shapes : !CollisionShapeInterface}.
Context `{Trees : !DynamicAABBTreeInterface}.
Context `{Tests : !RaycastTestInterface}.

(** Modelled from the spec: [CollisionDetection::updateProxyShape] is defined
    in CollisionDetection.h, which is missing; the spec says the setter calls
    the broad phase's [update_proxy_shape] on the entity. *)
Definition updateProxyShape (proxyShapeEntity : Entity) : M unit :=
  BroadPhaseSystem.updateProxyShape proxyShapeEntity.

End Methods.
End CollisionDetection.

(** ** ProxyShape.cpp

    The logger calls ([RP3D_LOG]) are left out: they write to the log only. *)

Module ProxyShape.
Section Methods.
Context `{Math : Mathematics} `{Shapes : !CollisionShapeInterface}.
Context `{Trees : !DynamicAABBTreeInterface}.
Context `{Tests : !RaycastTestInterface}.

Definition getBroadPhaseId (this : ProxyShape) : M Z :=
  ProxyShapeComponents.getBroadPhaseId (mEntity this).

Definition getLocalToBodyTransform (this : ProxyShape) : M Transform :=
  ProxyShapeComponents.getLocalToBodyTransform (mEntity this).

Definition getCollisionCategoryBits (this : ProxyShape) : M N :=
  ProxyShapeComponents.getCollisionCategoryBits (mEntity this).

Definition getCollideWithMaskBits (this : ProxyShape) : M N :=
  ProxyShapeComponents.getCollideWithMaskBits (mEntity this).

Definition getLocalToWorldTransform (this : ProxyShape) : M Transform :=
  bodyEntity ← Body.getEntity (mBody this);
  bodyTransform ← gets (λ w, mTransformComponents w bodyEntity);
  localToBody ← ProxyShapeComponents.getLocalToBodyTransform (mEntity this);
  mret (Transform_mul bodyTransform localToBody).

Definition setCollisionCategoryBits (this : ProxyShape)
    (collisionCategoryBits : N) : M unit :=
  ProxyShapeComponents.setCollisionCategoryBits (mEntity this)
    collisionCategoryBits;;
  broadPhaseId ← ProxyShapeComponents.getBroadPhaseId (mEntity this);
  mret tt.

Definition setCollideWithMaskBits (this : ProxyShape)
    (collideWithMaskBits : N) : M unit :=
  ProxyShapeComponents.setCollideWithMaskBits (mEntity this)
    collideWithMaskBits;;
  broadPhaseId ← ProxyShapeComponents.getBroadPhaseId (mEntity this);
  mret tt.

Definition setLocalToBodyTransform (this : ProxyShape) (transform : Transform)
  : M unit :=
  ProxyShapeComponents.setLocalToBodyTransform (mEntity this) transform;;
  Body.setIsSleeping (mBody this) false;;
  CollisionDetection.updateProxyShape (mEntity this);;
  broadPhaseId ← ProxyShapeComponents.getBroadPhaseId (mEntity this);
  mret tt.

Definition set_worldPoint (v : Vector3) (info : RaycastInfo) : RaycastInfo :=
  {| worldPoint := v;
     worldNormal := worldNormal info;
     hitFraction := hitFraction info |}.

Definition set_worldNormal (v : Vector3) (info : RaycastInfo) : RaycastInfo :=
  {| worldPoint := worldPoint info;
     worldNormal := v;
     hitFraction := hitFraction info |}.

(** [raycastInfo] is an out-parameter: the result carries the record as the
    method leaves it. *)
Definition raycast (this : ProxyShape) (ray : Ray) (raycastInfo : RaycastInfo)
  : M (bool * RaycastInfo) :=
  active ← Body.isActive (mBody this);
  if negb active then mret (false, raycastInfo) else
  localToWorldTransform ← getLocalToWorldTransform this;
  let worldToLocalTransform := Transform_getInverse localToWorldTransform in
  let rayLocal :=
    {| point1 := Transform_mulVector worldToLocalTransform (point1 ray);
       point2 := Transform_mulVector worldToLocalTransform (point2 ray);
       maxFraction := maxFraction ray |} in
  collisionShape ← ProxyShapeComponents.getCollisionShape (mEntity this);
  call (Call_CollisionShape_raycast collisionShape rayLocal this);;
  let '(isHit, raycastInfo) :=
    CollisionShape_raycast collisionShape rayLocal raycastInfo this in
  let raycastInfo :=
    set_worldPoint
      (Transform_mulVector localToWorldTransform (worldPoint raycastInfo))
      raycastInfo in
  let raycastInfo :=
    set_worldNormal
      (Quaternion_mulVector (Transform_getOrientation localToWorldTransform)
                            (worldNormal raycastInfo))
      raycastInfo in
  let raycastInfo :=
    set_worldNormal (Vector3_normalize (worldNormal raycastInfo))
                    raycastInfo in
  mret (isHit, raycastInfo).

Definition getCollisionShape (this : ProxyShape) : M CollisionShape :=
  ProxyShapeComponents.getCollisionShape (mEntity this).

Definition getWorldAABB (this : ProxyShape) : M AABB :=
  collisionShape ← ProxyShapeComponents.getCollisionShape (mEntity this);
  localToWorld ← getLocalToWorldTransform this;
  call (Call_computeAABB collisionShape localToWorld);;
  mret (CollisionShape_computeAABB collisionShape localToWorld).

Context `{PointTest : !CollisionShapePointTest}.

Definition testPointInside (this : ProxyShape) (worldPoint : Vector3)
  : M bool :=
  bodyEntity ← Body.getEntity (mBody this);
  bodyTransform ← gets (λ w, mTransformComponents w bodyEntity);
  localToBody ← ProxyShapeComponents.getLocalToBodyTransform (mEntity this);
  let localToWorld := Transform_mul bodyTransform localToBody in
  let localPoint :=
    Transform_mulVector (Transform_getInverse localToWorld) worldPoint in
  collisionShape ← ProxyShapeComponents.getCollisionShape (mEntity this);
  mret (CollisionShape_testPointInside collisionShape localPoint this).

End Methods.
End ProxyShape.

Module BroadPhaseRaycastCallback.
Section Methods.
Context `{Math : Mathematics} `{Shapes : !CollisionShapeInterface}.
Context `{Trees : !DynamicAABBTreeInterface}.
Context `{Tests : !RaycastTestInterface}.

(** The callback object; its [mDynamicAABBTree] member is a reference to the
    tree of the broad phase, read from the [World]. *)
Record t := {
  mRaycastWithCategoryMaskBits : N;
  mRaycastTest : RaycastTest;
}.

(** The result carries the hit fraction and the raycast test as the call
    leaves it. *)
Definition raycastBroadPhaseShape (this : t) (nodeId : Z) (ray : Ray)
  : M (decimal * RaycastTest) :=
  let hitFraction := (-1)%float in
  tree ← BroadPhaseSystem.getTree;
  let proxyShape := getNodeDataPointer tree nodeId in
  categoryBits ← ProxyShape.getCollisionCategoryBits proxyShape;
  if negb (N.land (mRaycastWithCategoryMaskBits this) categoryBits =? 0)%N
  then
    call (Call_raycastAgainstShape proxyShape ray);;
    mret (raycastAgainstShape (mRaycastTest this) proxyShape ray)
  else mret (hitFraction, mRaycastTest this).

End Methods.
End BroadPhaseRaycastCallback.

(** ** Vocabulary of the statements *)

(** The lexicographic order on pairs that [smallerThan] decides. *)
Definition pair_lt (p q : BroadPhasePair) : Prop :=
  (collisionShape1ID p < collisionShape1ID q
   ∨ (collisionShape1ID p = collisionShape1ID q
      ∧ collisionShape2ID p < collisionShape2ID q))%Z.

Definition pair_le (p q : BroadPhasePair) : Prop := pair_lt p q ∨ p = q.

(** Where the inner [while] loop of [computeOverlappingPairs] leaves the
    iterator: behind the leading copies of [p]. *)
Fixpoint skipDuplicates (p : BroadPhasePair) (it : list BroadPhasePair)
  : list BroadPhasePair :=
  match it with
  | [] => []
  | nextPair :: it' =>
      if negb (collisionShape1ID nextPair =? collisionShape1ID p)%Z
         || negb (collisionShape2ID nextPair =? collisionShape2ID p)%Z
      then it
      else skipDuplicates p it'
  end.

Section Vocabulary.
Context `{Math : Mathematics} `{Shapes : !CollisionShapeInterface}.
Context `{Trees : !DynamicAABBTreeInterface}.
Context `{Tests : !RaycastTestInterface}.

(** The two proxy shapes a pair of node ids resolves to. *)
Definition shape1Of (w : World) (p : BroadPhasePair) : ProxyShape :=
  getNodeDataPointer (mDynamicAABBTree (mBroadPhaseSystem w))
                     (collisionShape1ID p).

Definition shape2Of (w : World) (p : BroadPhasePair) : ProxyShape :=
  getNodeDataPointer (mDynamicAABBTree (mBroadPhaseSystem w))
                     (collisionShape2ID p).

(** The call by which the pair [p] is notified to the narrow phase. *)
Definition notification (w : World) (p : BroadPhasePair) : Call :=
  Call_broadPhaseNotifyOverlappingPair (shape1Of w p) (shape2Of w p).

Definition bodyIdOf (w : World) (shape : ProxyShape) : bodyindex :=
  mID (bodies w (mBody shape)).

Definition differentBodies (w : World) (p : BroadPhasePair) : bool :=
  negb (bodyIdOf w (shape1Of w p) =? bodyIdOf w (shape2Of w p))%N.

(** The node ids the tree reports as overlapping the fat AABB of [m]. *)
Definition overlapping (w : World) (m : Z) : list Z :=
  let tree := mDynamicAABBTree (mBroadPhaseSystem w) in
  reportAllShapesOverlappingWithAABB tree (getFatAABB tree m).

(** The potential-pairs buffer after the loop over the moved shapes [moved],
    started with the buffer [acc]. *)
Fixpoint potentialPairsOf (w : World) (moved : list Z)
    (acc : list BroadPhasePair) : list BroadPhasePair :=
  match moved with
  | [] => acc
  | m :: moved' =>
      potentialPairsOf w moved'
        (if (m =? -1)%Z then acc
         else BroadPhaseSystem.addOverlappingNodesLoop m (overlapping w m) acc)
  end.

(** The world with the buffers of the broad phase replaced. *)
Definition withBuffers (movedShapes : list Z)
    (potentialPairs : list BroadPhasePair) (w : World) : World :=
  set_mBroadPhaseSystem
    {| mDynamicAABBTree := mDynamicAABBTree (mBroadPhaseSystem w);
       mMovedShapes := movedShapes;
       mPotentialPairs := potentialPairs |} w.

(** The potential-pairs buffer as [computeOverlappingPairs] sorts it. *)
Definition sortedPotentialPairs (w : World) : list BroadPhasePair :=
  std_sort smallerThan
    (potentialPairsOf w (mMovedShapes (mBroadPhaseSystem w)) []).

(** The trace of a run. *)
Definition callsOf {A} (r : option (A * World * list Call))
  : option (list Call) :=
  match r with
  | Some (_, _, calls) => Some calls
  | None => None
  end.

(** [m] run [n] times in a row. *)
Fixpoint times (n : nat) (m : M unit) : M unit :=
  match n with
  | O => mret tt
  | S n' => m;; times n' m
  end.

(** One row of the component columns. *)
Record ProxyShapeRow := {
  rowBodyEntity : Entity;
  rowCollisionShape : CollisionShape;
  rowLocalToBodyTransform : Transform;
  rowBroadPhaseId : Z;
  rowCollisionCategoryBits : N;
  rowCollideWithMaskBits : N;
}.

Definition row (c : ProxyShapeComponents) (i : N) : option ProxyShapeRow :=
  bodyEntity ← mBodiesEntities c !! N.to_nat i;
  shape ← mCollisionShapes c !! N.to_nat i;
  localToBody ← mLocalToBodyTransforms c !! N.to_nat i;
  broadPhaseId ← mBroadPhaseIds c !! N.to_nat i;
  categoryBits ← mCollisionCategoryBits c !! N.to_nat i;
  maskBits ← mCollideWithMaskBits c !! N.to_nat i;
  Some {| rowBodyEntity := bodyEntity;
          rowCollisionShape := shape;
          rowLocalToBodyTransform := localToBody;
          rowBroadPhaseId := broadPhaseId;
          rowCollisionCategoryBits := categoryBits;
          rowCollideWithMaskBits := maskBits |}.

(** The world transform of the shape of row [r], its world AABB, and the
    broad phase after [updateObject] was called on that row's node with that
    AABB and a zero displacement. *)
Definition rowWorldTransform (w : World) (r : ProxyShapeRow) : Transform :=
  Transform_mul (mTransformComponents w (rowBodyEntity r))
                (rowLocalToBodyTransform r).

Definition rowWorldAABB (w : World) (r : ProxyShapeRow) : AABB :=
  CollisionShape_computeAABB (rowCollisionShape r) (rowWorldTransform w r).

Definition rowUpdated (w : World) (r : ProxyShapeRow) : World :=
  let b := mBroadPhaseSystem w in
  let result := updateObject (mDynamicAABBTree b) (rowBroadPhaseId r)
                             (rowWorldAABB w r) Vector3_zero in
  set_mBroadPhaseSystem
    {| mDynamicAABBTree := result.2;
       mMovedShapes := if result.1
                       then mMovedShapes b ++ [rowBroadPhaseId r]
                       else mMovedShapes b;
       mPotentialPairs := mPotentialPairs b |} w.

(** The entity [e] is registered at row [i] of a store whose counters are
    [uint32] values with the enabled rows a prefix of the rows. *)
Definition registeredAt (c : ProxyShapeComponents) (e : Entity) (i : N)
  : Prop :=
  mMapEntityToComponentIndex c !! e = Some i
  ∧ (i < nbComponents c)%N
  ∧ (nbEnabledComponents c ≤ nbComponents c)%N
  ∧ (nbComponents c < 2 ^ 32)%N.

(** The calls that the loop of [updateProxyShapesComponents] makes for a row
    [r]: none when the row's node id is -1. *)
Definition rowCalls (w : World) (r : ProxyShapeRow) : list Call :=
  if (rowBroadPhaseId r =? -1)%Z then []
  else [Call_computeAABB (rowCollisionShape r) (rowWorldTransform w r);
        Call_updateObject (rowBroadPhaseId r) (rowWorldAABB w r) Vector3_zero].

(** The rows [first], [first + 1], ... ([count] of them) that can be read. *)
Fixpoint rowsFrom (c : ProxyShapeComponents) (first : N) (count : nat)
  : list ProxyShapeRow :=
  match count with
  | O => []
  | S count' =>
      match row c first with
      | Some r => r :: rowsFrom c (first + 1) count'
      | None => rowsFrom c (first + 1) count'
      end
  end.

(** [w'] is [w] after updates of the broad phase: bodies, component columns,
    transforms and potential pairs are the same, and the moved shapes of [w]
    are a prefix of those of [w']. *)
Definition broadPhaseUpdateOf (w w' : World) : Prop :=
  bodies w' = bodies w
  ∧ mProxyShapesComponents w' = mProxyShapesComponents w
  ∧ mTransformComponents w' = mTransformComponents w
  ∧ mPotentialPairs (mBroadPhaseSystem w') = mPotentialPairs (mBroadPhaseSystem w)
  ∧ ∃ added, mMovedShapes (mBroadPhaseSystem w') =
             mMovedShapes (mBroadPhaseSystem w) ++ added.

(** The calls to the collision shape's [computeAABB] and to the tree's
    [updateObject]. *)
Definition isUpdateCall (c : Call) : Prop :=
  match c with
  | Call_computeAABB _ _ | Call_updateObject _ _ _ => True
  | _ => False
  end.

(** The world transform of a proxy shape whose row holds [r]. *)
Definition localToWorldOf (w : World) (this : ProxyShape) (r : ProxyShapeRow)
  : Transform :=
  Transform_mul (mTransformComponents w (mBodyEntity (bodies w (mBody this))))
                (rowLocalToBodyTransform r).

(** The component columns with one cell replaced. *)
Definition withLocalToBodyTransform (i : N) (transform : Transform)
    (c : ProxyShapeComponents) : ProxyShapeComponents :=
  ProxyShapeComponents.set_mLocalToBodyTransforms
    (<[N.to_nat i := transform]> (mLocalToBodyTransforms c)) c.

Definition withCollisionCategoryBits (i : N) (bits : N)
    (c : ProxyShapeComponents) : ProxyShapeComponents :=
  ProxyShapeComponents.set_mCollisionCategoryBits
    (<[N.to_nat i := bits]> (mCollisionCategoryBits c)) c.

Definition withCollideWithMaskBits (i : N) (bits : N)
    (c : ProxyShapeComponents) : ProxyShapeComponents :=
  ProxyShapeComponents.set_mCollideWithMaskBits
    (<[N.to_nat i := bits]> (mCollideWithMaskBits c)) c.

Definition withBroadPhaseId (i : N) (broadPhaseId : Z)
    (c : ProxyShapeComponents) : ProxyShapeComponents :=
  ProxyShapeComponents.set_mBroadPhaseIds
    (<[N.to_nat i := broadPhaseId]> (mBroadPhaseIds c)) c.

(** The world after [setLocalToBodyTransform] has stored the transform in
    row [i] and cleared the sleeping flag of the body [body]. *)
Definition storedAndWoken (i : N) (transform : Transform)
    (body : CollisionBodyPtr) (w : World) : World :=
  set_bodies
    (λ p, if decide (p = body)
          then {| mID := mID (bodies w p);
                  mBodyEntity := mBodyEntity (bodies w p);
                  mIsActive := mIsActive (bodies w p);
                  mIsSleeping := false |}
          else bodies w p)
    (set_mProxyShapesComponents
       (withLocalToBodyTransform i transform (mProxyShapesComponents w)) w).

(** A row with one cell replaced. *)
Definition rowWithLocalToBodyTransform (transform : Transform)
    (r : ProxyShapeRow) : ProxyShapeRow :=
  {| rowBodyEntity := rowBodyEntity r;
     rowCollisionShape := rowCollisionShape r;
     rowLocalToBodyTransform := transform;
     rowBroadPhaseId := rowBroadPhaseId r;
     rowCollisionCategoryBits := rowCollisionCategoryBits r;
     rowCollideWithMaskBits := rowCollideWithMaskBits r |}.

Definition rowWithCollisionCategoryBits (bits : N) (r : ProxyShapeRow)
  : ProxyShapeRow :=
  {| rowBodyEntity := rowBodyEntity r;
     rowCollisionShape := rowCollisionShape r;
     rowLocalToBodyTransform := rowLocalToBodyTransform r;
     rowBroadPhaseId := rowBroadPhaseId r;
     rowCollisionCategoryBits := bits;
     rowCollideWithMaskBits := rowCollideWithMaskBits r |}.

Definition rowWithCollideWithMaskBits (bits : N) (r : ProxyShapeRow)
  : ProxyShapeRow :=
  {| rowBodyEntity := rowBodyEntity r;
     rowCollisionShape := rowCollisionShape r;
     rowLocalToBodyTransform := rowLocalToBodyTransform r;
     rowBroadPhaseId := rowBroadPhaseId r;
     rowCollisionCategoryBits := rowCollisionCategoryBits r;
     rowCollideWithMaskBits := bits |}.

Definition rowWithBroadPhaseId (broadPhaseId : Z) (r : ProxyShapeRow)
  : ProxyShapeRow :=
  {| rowBodyEntity := rowBodyEntity r;
     rowCollisionShape := rowCollisionShape r;
     rowLocalToBodyTransform := rowLocalToBodyTransform r;
     rowBroadPhaseId := broadPhaseId;
     rowCollisionCategoryBits := rowCollisionCategoryBits r;
     rowCollideWithMaskBits := rowCollideWithMaskBits r |}.

End Vocabulary.

(** ** An implementation of the interfaces on the integer lattice

    Vectors have integer coordinates, transforms are translations, shapes are
    axis-aligned cubes given by their half extent, and the tree is a flat list
    of leaves.  The model runs on it: the examples and the instances of the
    theorems below are evaluated there. *)

Module Lattice.

Definition vec : Type := Z * Z * Z.

Definition vadd (u v : vec) : vec :=
  let '(a, b, c) := u in let '(x, y, z) := v in (a + x, b + y, c + z)%Z.

Definition vopp (u : vec) : vec :=
  let '(a, b, c) := u in (- a, - b, - c)%Z.

(** The direction of a lattice vector: each coordinate reduced to its sign. *)
Definition direction (u : vec) : vec :=
  let '(a, b, c) := u in (Z.sgn a, Z.sgn b, Z.sgn c).

Definition box : Type := vec * vec.

Definition overlap (b1 b2 : box) : bool :=
  let '((a1, b1, c1), (x1, y1, z1)) := b1 in
  let '((a2, b2, c2), (x2, y2, z2)) := b2 in
  negb ((x1 <? a2) || (x2 <? a1) || (y1 <? b2) || (y2 <? b1)
        || (z1 <? c2) || (z2 <? c1))%Z.

Definition contains (outer inner : box) : bool :=
  let '((a1, b1, c1), (x1, y1, z1)) := outer in
  let '((a2, b2, c2), (x2, y2, z2)) := inner in
  ((a1 <=? a2) && (b1 <=? b2) && (c1 <=? c2)
   && (x2 <=? x1) && (y2 <=? y1) && (z2 <=? z1))%Z.

Definition grow (gap : Z) (b : box) : box :=
  let '((a, b, c), (x, y, z)) := b in
  ((a - gap, b - gap, c - gap), (x + gap, y + gap, z + gap))%Z.

Global Instance mathematics : Mathematics := {|
  Vector3 := vec;
  Quaternion := unit;
  Transform := vec;
  AABB := box;
  Vector3_zero := (0, 0, 0)%Z;
  Vector3_normalize := direction;
  Quaternion_mulVector := λ _ v, v;
  Transform_mul := vadd;
  Transform_mulVector := vadd;
  Transform_getInverse := vopp;
  Transform_getOrientation := λ _, tt;
  AABB_testCollision := overlap;
|}.

(** A cube of half extent [h]: its box under a translation, and a ray test
    that hits when the ray starts inside the cube. *)
Definition cubeAABB (h : Z) (t : vec) : box :=
  let '(x, y, z) := t in ((x - h, y - h, z - h), (x + h, y + h, z + h))%Z.

Definition cubeRaycast (h : Z) (ray : Ray) (info : RaycastInfo)
    (proxyShape : ProxyShape) : bool * RaycastInfo :=
  if contains (cubeAABB h (0, 0, 0)%Z) (point1 ray, point1 ray)
  then (true, {| worldPoint := point1 ray;
                 worldNormal := vadd (point1 ray) (vopp (point2 ray));
                 hitFraction := 0%float |})
  else (false, info).

Global Instance shapes : CollisionShapeInterface := {|
  CollisionShape := Z;
  CollisionShape_computeAABB := cubeAABB;
  CollisionShape_raycast := cubeRaycast;
|}.

(** The tree as the list of its leaves: fat AABB and payload, the node id
    being the position in the list. *)
Definition leaves : Type := list (box * ProxyShape).

Definition noShape : ProxyShape := {| mEntity := 0; mBody := 0 |}.

Definition leafBox (t : leaves) (nodeId : Z) : box :=
  match t !! Z.to_nat nodeId with
  | Some (b, _) => b
  | None => ((0, 0, 0), (0, 0, 0))%Z
  end.

Definition leafShape (t : leaves) (nodeId : Z) : ProxyShape :=
  match t !! Z.to_nat nodeId with
  | Some (_, s) => s
  | None => noShape
  end.

Definition leafOverlaps (t : leaves) (query : box) : list Z :=
  omap (λ '(i, (b, _)), if overlap b query then Some (Z.of_nat i) else None)
       (imap (λ i l, (i, l)) t).

Definition leafUpdate (t : leaves) (nodeId : Z) (tight : box)
    (displacement : vec) : bool * leaves :=
  if contains (leafBox t nodeId) tight then (false, t)
  else (true, <[Z.to_nat nodeId := (grow 1 tight, leafShape t nodeId)]> t).

Global Instance trees : DynamicAABBTreeInterface := {|
  DynamicAABBTree := leaves;
  getFatAABB := leafBox;
  getNodeDataPointer := leafShape;
  reportAllShapesOverlappingWithAABB := leafOverlaps;
  updateObject := leafUpdate;
|}.

(** A raycast test that keeps the shapes it was asked about and answers with
    the fraction one half. *)
Global Instance tests : RaycastTestInterface := {|
  RaycastTest := list ProxyShape;
  raycastAgainstShape := λ test shape ray, (0.5%float, test ++ [shape]);
|}.

(** Two bodies: body 10 awake and active, body 20 asleep and inactive. *)
Definition body10 : CollisionBody :=
  {| mID := 1; mBodyEntity := 10; mIsActive := true; mIsSleeping := false |}.
Definition body20 : CollisionBody :=
  {| mID := 2; mBodyEntity := 20; mIsActive := false; mIsSleeping := true |}.

(** Three proxy shapes: entities 1 and 2 on body 10, entity 3 on body 20. *)
Definition proxy1 : ProxyShape := {| mEntity := 1; mBody := 10 |}.
Definition proxy2 : ProxyShape := {| mEntity := 2; mBody := 10 |}.
Definition proxy3 : ProxyShape := {| mEntity := 3; mBody := 20 |}.

(** Rows 0 and 1 are enabled, row 2 is disabled.  The unit cubes of rows 0
    and 1 sit at the origin and at (1,0,0); the cube of row 2 at (1,1,0). *)
Definition components : ProxyShapeComponents :=
  {| nbComponents := 3;
     nbEnabledComponents := 2;
     mMapEntityToComponentIndex := {[ 1%N := 0%N; 3%N := 1%N; 2%N := 2%N ]};
     mBodiesEntities := [10%N; 20%N; 10%N];
     mCollisionShapes := [1%Z; 1%Z; 1%Z];
     mLocalToBodyTransforms := [(0, 0, 0)%Z; (0, 0, 0)%Z; (0, 1, 0)%Z];
     mBroadPhaseIds := [0%Z; 1%Z; 2%Z];
     mCollisionCategoryBits := [1%N; 2%N; 1%N];
     mCollideWithMaskBits := [65535%N; 65535%N; 65535%N] |}.

Definition tree0 : leaves :=
  [ (grow 1 (cubeAABB 1 (0, 0, 0)%Z), proxy1);
    (grow 1 (cubeAABB 1 (1, 0, 0)%Z), proxy3);
    (grow 1 (cubeAABB 1 (1, 1, 0)%Z), proxy2) ].

Definition world0 : World :=
  {| bodies := λ p, if (p =? 10)%N then body10 else body20;
     mProxyShapesComponents := components;
     mTransformComponents := λ e, if (e =? 10)%N then (0, 0, 0)%Z
                                  else (1, 0, 0)%Z;
     mBroadPhaseSystem :=
       {| mDynamicAABBTree := tree0;
          mMovedShapes := [1%Z];
          mPotentialPairs := [] |} |}.

(** The three rows of [components]. *)
Definition row0 : ProxyShapeRow :=
  {| rowBodyEntity := 10; rowCollisionShape := 1%Z;
     rowLocalToBodyTransform := (0, 0, 0)%Z; rowBroadPhaseId := 0;
     rowCollisionCategoryBits := 1; rowCollideWithMaskBits := 65535 |}.
Definition row1 : ProxyShapeRow :=
  {| rowBodyEntity := 20; rowCollisionShape := 1%Z;
     rowLocalToBodyTransform := (0, 0, 0)%Z; rowBroadPhaseId := 1;
     rowCollisionCategoryBits := 2; rowCollideWithMaskBits := 65535 |}.
Definition row2 : ProxyShapeRow :=
  {| rowBodyEntity := 10; rowCollisionShape := 1%Z;
     rowLocalToBodyTransform := (0, 1, 0)%Z; rowBroadPhaseId := 2;
     rowCollisionCategoryBits := 1; rowCollideWithMaskBits := 65535 |}.

(** A ray along the x axis that starts outside every cube, and a raycast-info
    record as a caller may pass it. *)
Definition ray0 : Ray :=
  {| point1 := (5, 0, 0)%Z; point2 := (9, 0, 0)%Z; maxFraction := 1%float |}.
Definition info0 : RaycastInfo :=
  {| worldPoint := (7, 7, 7)%Z; worldNormal := (0, 0, 2)%Z;
     hitFraction := 1%float |}.

(** A raycast callback that accepts category 2 only. *)
Definition callback0 : BroadPhaseRaycastCallback.t :=
  {| BroadPhaseRaycastCallback.mRaycastWithCategoryMaskBits := 2;
     BroadPhaseRaycastCallback.mRaycastTest := [] |}.

(** Leaves are added at the end of the list; a removed leaf keeps its
    position and becomes a degenerate box without a shape. *)
Definition leafAdd (t : leaves) (tight : box) (shape : ProxyShape)
  : Z * leaves :=
  (Z.of_nat (length t), t ++ [(grow 1 tight, shape)]).

Definition leafRemove (t : leaves) (nodeId : Z) : leaves :=
  <[Z.to_nat nodeId := (((0, 0, 0), (-1, -1, -1))%Z, noShape)]> t.

Global Instance leafOperations : DynamicAABBTreeLeaves := {|
  addObject := leafAdd;
  removeObject := leafRemove;
|}.

Global Instance pointTest : CollisionShapePointTest := {|
  CollisionShape_testPointInside :=
    λ h p _, contains (cubeAABB h (0, 0, 0)%Z) (p, p);
|}.

(** A fourth proxy shape, on body 20, registered at a fourth row that is not
    yet in the tree, and the world that holds it; its four rows are
    enabled. *)
Definition proxy4 : ProxyShape := {| mEntity := 4; mBody := 20 |}.

Definition components4 : ProxyShapeComponents :=
  {| nbComponents := 4;
     nbEnabledComponents := 4;
     mMapEntityToComponentIndex :=
       {[ 1%N := 0%N; 3%N := 1%N; 2%N := 2%N; 4%N := 3%N ]};
     mBodiesEntities := [10%N; 20%N; 10%N; 20%N];
     mCollisionShapes := [1%Z; 1%Z; 1%Z; 1%Z];
     mLocalToBodyTransforms :=
       [(0, 0, 0)%Z; (0, 0, 0)%Z; (0, 1, 0)%Z; (0, 0, 1)%Z];
     mBroadPhaseIds := [0%Z; 1%Z; 2%Z; (-1)%Z];
     mCollisionCategoryBits := [1%N; 2%N; 1%N; 2%N];
     mCollideWithMaskBits := [65535%N; 65535%N; 65535%N; 65535%N] |}.

Definition row3 : ProxyShapeRow :=
  {| rowBodyEntity := 20; rowCollisionShape := 1%Z;
     rowLocalToBodyTransform := (0, 0, 1)%Z; rowBroadPhaseId := -1;
     rowCollisionCategoryBits := 2; rowCollideWithMaskBits := 65535 |}.

Definition world4 : World := set_mProxyShapesComponents components4 world0.

(** The tree of [world0] with a larger fat AABB on its first leaf. *)
Definition tree1 : leaves :=
  [ (grow 2 (cubeAABB 1 (0, 0, 0)%Z), proxy1);
    (grow 1 (cubeAABB 1 (1, 0, 0)%Z), proxy3);
    (grow 1 (cubeAABB 1 (1, 1, 0)%Z), proxy2) ].

(** A world whose component store holds no component. *)
Definition noComponents : ProxyShapeComponents :=
  {| nbComponents := 0;
     nbEnabledComponents := 0;
     mMapEntityToComponentIndex := ∅;
     mBodiesEntities := [];
     mCollisionShapes := [];
     mLocalToBodyTransforms := [];
     mBroadPhaseIds := [];
     mCollisionCategoryBits := [];
     mCollideWithMaskBits := [] |}.

Definition worldWithoutComponents : World :=
  set_mProxyShapesComponents noComponents world0.

(** The calls of an update of the two enabled rows of [world0]. *)
Definition updateCalls0 : list Call :=
  [Call_computeAABB 1%Z (0, 0, 0)%Z;
   Call_updateObject 0 ((-1, -1, -1), (1, 1, 1))%Z (0, 0, 0)%Z;
   Call_computeAABB 1%Z (1, 0, 0)%Z;
   Call_updateObject 1 ((0, -1, -1), (2, 1, 1))%Z (0, 0, 0)%Z].

End Lattice.

(** * Results *)

(** ** The order on pairs and [std::sort] *)

Lemma pair_eq p q :
  collisionShape1ID p = collisionShape1ID q →
  collisionShape2ID p = collisionShape2ID q → p = q.
Proof. destruct p, q; simpl; congruence. Qed.

Lemma smallerThan_spec p q : smallerThan p q = true ↔ pair_lt p q.
Proof.
  unfold smallerThan, pair_lt.
  destruct (Z.ltb_spec (collisionShape1ID p) (collisionShape1ID q)) as [Hlt|Hge].
  - split; [intros _; by left | done].
  - destruct (Z.eqb_spec (collisionShape1ID p) (collisionShape1ID q)) as [Heq|Hne].
    + rewrite Z.ltb_lt. split; [intros H; by right | intros [H|[_ H]]; [lia | done]].
    + split; [done | intros [H|[H _]]; [lia | done]].
Qed.

Lemma smallerThan_false p q : smallerThan p q = false ↔ pair_le q p.
Proof.
  rewrite <- not_true_iff_false, smallerThan_spec. unfold pair_le, pair_lt.
  split.
  - intros Hn.
    destruct (Z.lt_trichotomy (collisionShape1ID p) (collisionShape1ID q))
      as [H1|[H1|H1]]; [exfalso; auto | | by left; left].
    destruct (Z.lt_trichotomy (collisionShape2ID p) (collisionShape2ID q))
      as [H2|[H2|H2]]; [exfalso; auto | | left; right; lia].
    right. by apply pair_eq.
  - intros [[H|[H1 H2]]| ->]; lia.
Qed.

Lemma pair_lt_irrefl p : ¬ pair_lt p p.
Proof. unfold pair_lt. lia. Qed.

Lemma pair_lt_trans p q r : pair_lt p q → pair_lt q r → pair_lt p r.
Proof. unfold pair_lt. lia. Qed.

Lemma pair_lt_le_trans p q r : pair_lt p q → pair_le q r → pair_lt p r.
Proof. intros H [H'| ->]; [by eapply pair_lt_trans | done]. Qed.

Global Instance pair_le_transitive : Transitive pair_le.
Proof.
  intros p q r [H| ->] H'; [|done]. left. by eapply pair_lt_le_trans.
Qed.

Global Instance pair_le_antisymm : AntiSymm (=) pair_le.
Proof.
  intros p q [H| ->] [H'| H']; try done.
  destruct (pair_lt_irrefl p). by eapply pair_lt_trans.
Qed.

Global Instance pair_lt_antisymm : AntiSymm (=) pair_lt.
Proof.
  intros p q H H'. destruct (pair_lt_irrefl p). by eapply pair_lt_trans.
Qed.

Lemma sort_insert_Permutation {A} (comp : A → A → bool) x l :
  sort_insert comp x l ≡ₚ x :: l.
Proof.
  induction l as [|y l IH]; simpl; [done|].
  destruct (comp x y); [done|]. rewrite IH. apply Permutation_swap.
Qed.

Lemma std_sort_Permutation {A} (comp : A → A → bool) l : std_sort comp l ≡ₚ l.
Proof.
  induction l as [|x l IH]; simpl; [done|].
  rewrite sort_insert_Permutation. by f_equiv.
Qed.

Lemma sort_insert_sorted x l :
  StronglySorted pair_le l → StronglySorted pair_le (sort_insert smallerThan x l).
Proof.
  induction l as [|y l IH]; simpl; intros Hs.
  - repeat constructor.
  - apply StronglySorted_inv in Hs as [Hl Hy].
    destruct (smallerThan x y) eqn:Hc.
    + apply smallerThan_spec in Hc.
      constructor; [by constructor|].
      constructor; [by left|].
      eapply Forall_impl; [exact Hy|]. intros z Hz. left.
      by eapply pair_lt_le_trans.
    + apply smallerThan_false in Hc.
      constructor; [by apply IH|].
      rewrite sort_insert_Permutation. by constructor.
Qed.

Lemma std_sort_sorted l : StronglySorted pair_le (std_sort smallerThan l).
Proof.
  induction l as [|x l IH]; simpl; [constructor|]. by apply sort_insert_sorted.
Qed.

(** Whatever algorithm [std::sort] runs, its result on a buffer of pairs is the
    one of [std_sort]: an ordered permutation of the buffer is unique. *)
Lemma std_sort_smallerThan_unique l l' :
  l' ≡ₚ l → StronglySorted pair_le l' → l' = std_sort smallerThan l.
Proof.
  intros Hp Hs. apply (StronglySorted_unique pair_le); [done| |].
  - apply std_sort_sorted.
  - by rewrite std_sort_Permutation.
Qed.

(** ** Running the monad *)

Section Results.
Context `{Math : Mathematics} `{Shapes : !CollisionShapeInterface}.
Context `{Trees : !DynamicAABBTreeInterface}.
Context `{Tests : !RaycastTestInterface}.

(** Unfolds the monad operations and the read-only accessors in a run. *)
Ltac run_M :=
  cbv beta iota zeta delta
    [mbind M_bind mret M_ret Assert gets modify call modifyBroadPhase
     BroadPhaseSystem.getTree Body.getId Body.getEntity Body.isActive].

Lemma bind_run {A B} (m : M A) (f : A → M B) w :
  (m ≫= f) w =
  match m w with
  | Some (a, w1, calls1) =>
      match f a w1 with
      | Some (b, w2, calls2) => Some (b, w2, calls1 ++ calls2)
      | None => None
      end
  | None => None
  end.
Proof. reflexivity. Qed.

Lemma bind_quiet {A B} (m : M A) (f : A → M B) w a w1 :
  m w = Some (a, w1, []) → (m ≫= f) w = f a w1.
Proof.
  intros Hm. rewrite bind_run, Hm. by destruct (f a w1) as [[[b w2] c]|].
Qed.

Lemma bind_silent {A B} (m : M A) (f : A → M B) w a :
  m w = Some (a, w, []) → (m ≫= f) w = f a w.
Proof. apply bind_quiet. Qed.

Lemma withBuffers_id w :
  withBuffers (mMovedShapes (mBroadPhaseSystem w))
              (mPotentialPairs (mBroadPhaseSystem w)) w = w.
Proof. by destruct w as [? ? ? []]. Qed.

(** ** The sweep over the moved shapes *)

Lemma foldl_notifyOverlappingNode (reported acc : list Z) :
  foldl (λ nodes nodeId, AABBOverlapCallback.notifyOverlappingNode nodeId nodes)
        acc reported = acc ++ reported.
Proof.
  revert acc. induction reported as [|n l IH]; intros acc; simpl.
  - by rewrite app_nil_r.
  - rewrite IH. unfold AABBOverlapCallback.notifyOverlappingNode.
    by rewrite <- app_assoc.
Qed.

Lemma elem_of_addOverlappingNodesLoop p m nodes acc :
  p ∈ BroadPhaseSystem.addOverlappingNodesLoop m nodes acc ↔
  p ∈ acc ∨ ∃ o, o ∈ nodes ∧ o ≠ m
               ∧ p = BroadPhaseSystem.BroadPhasePair_ctor (Z.min m o) (Z.max m o).
Proof.
  revert acc. induction nodes as [|d nodes IH]; intros acc; simpl.
  - split; [by left | intros [H|(o & Ho & _)]; [done | by apply elem_of_nil in Ho]].
  - rewrite IH. destruct (Z.eqb_spec m d) as [->|Hne]; simpl.
    + split.
      * intros [H|(o & Ho & Hne & Hp)]; [by left | right].
        exists o. split; [by right | done].
      * intros [H|(o & Ho & Hne & Hp)]; [by left | right].
        exists o. apply elem_of_cons in Ho as [->|Ho]; done.
    + rewrite elem_of_app, list_elem_of_singleton. split.
      * intros [[H|H]|(o & Ho & Hne' & Hp)]; [by left | right | right].
        -- exists d. split; [by left | done].
        -- exists o. split; [by right | done].
      * intros [H|(o & Ho & Hne' & Hp)]; [by left; left |].
        apply elem_of_cons in Ho as [->|Ho]; [by left; right | right].
        by exists o.
Qed.

Lemma elem_of_potentialPairsOf p w moved acc :
  p ∈ potentialPairsOf w moved acc ↔
  p ∈ acc ∨ ∃ m o, m ∈ moved ∧ m ≠ (-1)%Z ∧ o ∈ overlapping w m ∧ o ≠ m
      ∧ p = BroadPhaseSystem.BroadPhasePair_ctor (Z.min m o) (Z.max m o).
Proof.
  revert acc. induction moved as [|m moved IH]; intros acc; simpl.
  - split; [by left | intros [H|(m & o & Hm & _)]; [done | by apply elem_of_nil in Hm]].
  - rewrite IH. destruct (Z.eqb_spec m (-1)) as [->|Hne].
    + split.
      * intros [H|(m & o & Hm & H)]; [by left | right].
        exists m, o. split; [by right | done].
      * intros [H|(m & o & Hm & Hne & H)]; [by left | right].
        exists m, o. apply elem_of_cons in Hm as [->|Hm]; done.
    + rewrite elem_of_addOverlappingNodesLoop. split.
      * intros [[H|(o & Ho & Hne' & Hp)]|(m' & o & Hm & H)]; [by left | right | right].
        -- exists m, o. split; [by left | done].
        -- exists m', o. split; [by right | done].
      * intros [H|(m' & o & Hm & Hne' & Ho & Hom & Hp)]; [by left; left |].
        apply elem_of_cons in Hm as [->|Hm].
        -- left; right. by exists o.
        -- right. by exists m', o.
Qed.

Lemma potentialPairsOf_withBuffers movedShapes potentialPairs w moved acc :
  potentialPairsOf (withBuffers movedShapes potentialPairs w) moved acc =
  potentialPairsOf w moved acc.
Proof.
  revert acc. induction moved as [|m moved IH]; intros acc; simpl; [done|].
  by rewrite IH.
Qed.

Lemma collectOverlappingNodes_run m w :
  BroadPhaseSystem.collectOverlappingNodes m w =
  Some (tt,
        withBuffers (mMovedShapes (mBroadPhaseSystem w))
          (potentialPairsOf w [m] (mPotentialPairs (mBroadPhaseSystem w))) w,
        []).
Proof.
  unfold BroadPhaseSystem.collectOverlappingNodes. simpl.
  destruct (Z.eqb_spec m (-1)) as [->|Hne].
  - simpl. by rewrite withBuffers_id.
  - rewrite (bind_silent _ _ w (mDynamicAABBTree (mBroadPhaseSystem w)))
      by done.
    by rewrite foldl_notifyOverlappingNode.
Qed.

Lemma forEach_collectOverlappingNodes moved w :
  BroadPhaseSystem.forEach BroadPhaseSystem.collectOverlappingNodes moved w =
  Some (tt,
        withBuffers (mMovedShapes (mBroadPhaseSystem w))
          (potentialPairsOf w moved (mPotentialPairs (mBroadPhaseSystem w))) w,
        []).
Proof.
  revert w. induction moved as [|m moved IH]; intros w.
  - simpl. by rewrite withBuffers_id.
  - change (BroadPhaseSystem.forEach BroadPhaseSystem.collectOverlappingNodes
              (m :: moved))
      with (BroadPhaseSystem.collectOverlappingNodes m;;
            BroadPhaseSystem.forEach BroadPhaseSystem.collectOverlappingNodes
              moved).
    rewrite bind_run, collectOverlappingNodes_run, IH.
    by rewrite potentialPairsOf_withBuffers.
Qed.

(** ** The walk over the sorted buffer *)

Lemma skipDuplicates_differs p q :
  negb (collisionShape1ID q =? collisionShape1ID p)%Z
  || negb (collisionShape2ID q =? collisionShape2ID p)%Z = false ↔ q = p.
Proof.
  rewrite orb_false_iff, !negb_false_iff, !Z.eqb_eq. split.
  - intros [H1 H2]. by apply pair_eq.
  - by intros ->.
Qed.

Lemma skipDuplicates_spec p it :
  ∃ k, it = replicate k p ++ skipDuplicates p it
       ∧ ∀ q, head (skipDuplicates p it) = Some q → q ≠ p.
Proof.
  induction it as [|q it (k & Hk & Hhd)]; simpl.
  - by exists 0%nat.
  - destruct (negb _ || negb _) eqn:Hc.
    + exists 0%nat. split; [done|]. simpl. intros q' [= <-] Hq.
      apply skipDuplicates_differs in Hq. congruence.
    + apply skipDuplicates_differs in Hc as ->.
      exists (S k). split; [|done]. simpl. by rewrite <- Hk.
Qed.

Lemma notifyUniquePairs_cons p it :
  BroadPhaseSystem.notifyUniquePairs (p :: it) =
  (BroadPhaseSystem.notifyPair p;;
   BroadPhaseSystem.notifyUniquePairs (skipDuplicates p it)).
Proof.
  simpl.
  match goal with
  | |- mbind (λ _, ?skip it) _ = _ =>
      assert (∀ l, skip l = BroadPhaseSystem.notifyUniquePairs
                              (skipDuplicates p l)) as Hskip
  end.
  { induction l as [|q l IH]; [done|]. simpl.
    destruct (negb _ || negb _); [done | exact IH]. }
  by rewrite Hskip.
Qed.

Lemma notifyPair_run p w :
  BroadPhaseSystem.notifyPair p w =
  if (collisionShape1ID p =? collisionShape2ID p)%Z then None
  else Some (tt, w, if differentBodies w p then [notification w p] else []).
Proof.
  unfold BroadPhaseSystem.notifyPair, differentBodies, notification,
    bodyIdOf, shape1Of, shape2Of.
  run_M.
  destruct (collisionShape1ID p =? collisionShape2ID p)%Z; [done|].
  simpl. by destruct (negb _).
Qed.

Lemma notifyUniquePairs_sorted w l :
  StronglySorted pair_le l →
  Forall (λ p, collisionShape1ID p ≠ collisionShape2ID p) l →
  ∃ unique,
    BroadPhaseSystem.notifyUniquePairs l w =
      Some (tt, w,
            notification w <$> filter (λ p, differentBodies w p) unique)
    ∧ StronglySorted pair_lt unique
    ∧ ∀ p, p ∈ unique ↔ p ∈ l.
Proof.
  remember (length l) as n eqn:Hn. revert l Hn.
  induction n as [n IH] using lt_wf_ind. intros [|p it] Hn Hsorted Hne.
  - exists []. repeat split; by try constructor.
  - apply StronglySorted_inv in Hsorted as [Hit Hp].
    apply Forall_cons in Hne as [Hpne Hne].
    destruct (skipDuplicates_spec p it) as (k & Hk & Hhd).
    set (rest := skipDuplicates p it) in *.
    assert (StronglySorted pair_le rest) as Hrest.
    { rewrite Hk in Hit. by apply StronglySorted_app_1_r in Hit. }
    assert (Forall (λ p, collisionShape1ID p ≠ collisionShape2ID p) rest)
      as Hrestne.
    { rewrite Hk in Hne. by apply Forall_app in Hne as [_ ?]. }
    assert (Forall (pair_lt p) rest) as Hlt.
    { assert (Forall (pair_le p) rest) as Hle.
      { rewrite Hk in Hp. by apply Forall_app in Hp as [_ ?]. }
      destruct rest as [|q rest']; [constructor|].
      apply StronglySorted_inv in Hrest as [_ Hq].
      apply Forall_cons in Hle as [[Hpq|Hpq] _];
        [|by destruct (Hhd q eq_refl)].
      constructor; [done|].
      eapply Forall_impl; [exact Hq|]. intros r Hr.
      by eapply pair_lt_le_trans. }
    destruct (IH (length rest)) with (l := rest)
      as (unique & Hrun & Hunique & Helem); [|done|done|done|].
    { rewrite Hn, Hk. simpl. rewrite length_app. lia. }
    exists (p :: unique). split; [|split].
    + rewrite notifyUniquePairs_cons, bind_run, notifyPair_run.
      destruct (Z.eqb_spec (collisionShape1ID p) (collisionShape2ID p));
        [done|].
      fold rest. rewrite Hrun.
      rewrite filter_cons. destruct (differentBodies w p) eqn:Hd.
      * rewrite decide_True by done. done.
      * rewrite decide_False by (by intros []). done.
    + constructor; [done|].
      apply Forall_forall. intros q Hq. apply Helem in Hq.
      by eapply Forall_forall in Hlt.
    + intros q. rewrite !elem_of_cons, Helem, Hk, elem_of_app.
      split; [intros [->|Hq]; auto|].
      intros [->|[Hq|Hq]]; auto.
      apply elem_of_replicate in Hq as [-> _]. auto.
Qed.

Lemma StronglySorted_filter_pairs (P : BroadPhasePair → Prop)
    `{∀ p, Decision (P p)} l :
  StronglySorted pair_lt l → StronglySorted pair_lt (filter P l).
Proof.
  induction 1 as [|p l Hl IH Hp]; [constructor|].
  rewrite filter_cons. case_decide; [|done].
  constructor; [done|].
  apply Forall_forall. intros q [_ Hq]%list_elem_of_filter.
  by eapply Forall_forall in Hp.
Qed.

(** Two strictly increasing lists with the same elements are equal. *)
Lemma strictly_sorted_unique (l1 l2 : list BroadPhasePair) :
  StronglySorted pair_lt l1 → StronglySorted pair_lt l2 →
  (∀ p, p ∈ l1 ↔ p ∈ l2) → l1 = l2.
Proof.
  intros H1 H2 Helem.
  assert (∀ l, StronglySorted pair_lt l → NoDup l) as Hnodup.
  { induction 1 as [|p l Hl IH Hp]; constructor; [|done].
    intros Hin. eapply Forall_forall in Hp; [|exact Hin].
    by apply pair_lt_irrefl in Hp. }
  apply (StronglySorted_unique pair_lt); [done..|].
  apply NoDup_Permutation; auto.
Qed.

(** ** [computeOverlappingPairs] *)

Lemma computeOverlappingPairs_run w :
  BroadPhaseSystem.computeOverlappingPairs w =
  BroadPhaseSystem.notifyUniquePairs (sortedPotentialPairs w)
    (withBuffers [] (sortedPotentialPairs w) w).
Proof.
  unfold BroadPhaseSystem.computeOverlappingPairs.
  erewrite bind_quiet; [|reflexivity].
  erewrite bind_quiet; [|reflexivity].
  erewrite bind_quiet; [|apply forEach_collectOverlappingNodes].
  erewrite bind_quiet; [|reflexivity].
  erewrite bind_quiet; [|reflexivity].
  erewrite bind_quiet; [|reflexivity].
  simpl.
  change (set_mBroadPhaseSystem (set_mPotentialPairs [] (mBroadPhaseSystem w)) w)
    with (withBuffers (mMovedShapes (mBroadPhaseSystem w)) [] w).
  by rewrite !potentialPairsOf_withBuffers.
Qed.

Lemma sortedPotentialPairs_elem w p :
  p ∈ sortedPotentialPairs w ↔
  ∃ m o, m ∈ mMovedShapes (mBroadPhaseSystem w) ∧ m ≠ (-1)%Z
         ∧ o ∈ overlapping w m ∧ o ≠ m
         ∧ p = BroadPhaseSystem.BroadPhasePair_ctor (Z.min m o) (Z.max m o).
Proof.
  unfold sortedPotentialPairs.
  rewrite std_sort_Permutation, elem_of_potentialPairsOf.
  split; [intros [H|H]; [by apply elem_of_nil in H | done] | by right].
Qed.

Lemma sortedPotentialPairs_canonical w :
  Forall (λ p, (collisionShape1ID p < collisionShape2ID p)%Z)
         (sortedPotentialPairs w).
Proof.
  apply Forall_forall. intros p Hp.
  apply sortedPotentialPairs_elem in Hp as (m & o & _ & _ & _ & Hne & ->).
  simpl. lia.
Qed.

(** The run of [computeOverlappingPairs]: it always returns, leaves the sorted
    buffer behind, and notifies the pairs of [unique], the strictly increasing
    list of the buffer's elements, that are on different bodies. *)
Lemma computeOverlappingPairs_spec w :
  ∃ unique,
    let w' := withBuffers [] (sortedPotentialPairs w) w in
    BroadPhaseSystem.computeOverlappingPairs w =
      Some (tt, w',
            notification w <$> filter (λ p, differentBodies w p) unique)
    ∧ StronglySorted pair_lt unique
    ∧ ∀ p, p ∈ unique ↔ p ∈ sortedPotentialPairs w.
Proof.
  destruct (notifyUniquePairs_sorted
              (withBuffers [] (sortedPotentialPairs w) w)
              (sortedPotentialPairs w)) as (unique & Hrun & Hsorted & Helem).
  - apply std_sort_sorted.
  - eapply Forall_impl; [apply sortedPotentialPairs_canonical|].
    simpl. intros p Hp. lia.
  - exists unique. simpl. rewrite computeOverlappingPairs_run. done.
Qed.

(** The notifications depend on the moved shapes only through the set of their
    node ids: neither their order nor their multiplicity matters, nor what the
    potential-pairs buffer held before. *)
Lemma computeOverlappingPairs_moved_ext w moved1 moved2 pairs1 pairs2 :
  (∀ m, m ∈ moved1 ↔ m ∈ moved2) →
  callsOf (BroadPhaseSystem.computeOverlappingPairs
             (withBuffers moved1 pairs1 w)) =
  callsOf (BroadPhaseSystem.computeOverlappingPairs
             (withBuffers moved2 pairs2 w)).
Proof.
  intros Hmoved.
  destruct (computeOverlappingPairs_spec (withBuffers moved1 pairs1 w))
    as (unique1 & -> & Hsorted1 & Helem1).
  destruct (computeOverlappingPairs_spec (withBuffers moved2 pairs2 w))
    as (unique2 & -> & Hsorted2 & Helem2).
  assert (unique1 = unique2) as ->; [|done].
  apply strictly_sorted_unique; [done..|].
  intros p. rewrite Helem1, Helem2, !sortedPotentialPairs_elem. simpl.
  split; intros (m & o & Hm & H); exists m, o; (split; [by apply Hmoved | done]).
Qed.

Lemma times_addMovedCollisionShape (k : nat) n w :
  times k (BroadPhaseSystem.addMovedCollisionShape n) w =
  Some (tt,
        withBuffers (mMovedShapes (mBroadPhaseSystem w) ++ replicate k n)
                    (mPotentialPairs (mBroadPhaseSystem w)) w,
        []).
Proof.
  revert w. induction k as [|k IH]; intros w; simpl.
  - by rewrite app_nil_r, withBuffers_id.
  - erewrite bind_quiet; [|reflexivity]. rewrite IH. simpl.
    unfold withBuffers. simpl. by rewrite <- app_assoc.
Qed.

(** C1: the pairs that [computeOverlappingPairs] notifies to the narrow phase
    are the images of a list of node-id pairs without repetition, in which no
    pair has two equal node ids and every pair resolves to two proxy shapes
    whose bodies have different ids.  That list holds exactly the pairs of the
    potential-pairs buffer that are on different bodies; the run always
    returns. *)
Theorem computeOverlappingPairs_pair_dedup (w : World) :
  ∃ (w' : World) (notified : list BroadPhasePair),
    BroadPhaseSystem.computeOverlappingPairs w =
      Some (tt, w', notification w <$> notified)
    ∧ NoDup notified
    ∧ Forall (λ p, collisionShape1ID p ≠ collisionShape2ID p
                   ∧ bodyIdOf w (shape1Of w p) ≠ bodyIdOf w (shape2Of w p))
             notified
    ∧ ∀ p, p ∈ notified ↔
           p ∈ mPotentialPairs (mBroadPhaseSystem w')
           ∧ bodyIdOf w (shape1Of w p) ≠ bodyIdOf w (shape2Of w p).
Proof.
  destruct (computeOverlappingPairs_spec w) as (unique & Hrun & Hsorted & Helem).
  assert (∀ p, differentBodies w p ↔
               bodyIdOf w (shape1Of w p) ≠ bodyIdOf w (shape2Of w p)) as Hdiff.
  { intros p. unfold differentBodies.
    rewrite negb_True, Is_true_true, N.eqb_eq. done. }
  eexists _, (filter (λ p, differentBodies w p) unique).
  split; [exact Hrun|]. split; [|split].
  - apply NoDup_filter.
    clear Hrun Helem. induction Hsorted as [|p l Hl IH Hp]; constructor; [|done].
    intros Hin. eapply Forall_forall in Hp; [|exact Hin].
    by apply pair_lt_irrefl in Hp.
  - apply Forall_forall. intros p [Hd Hp]%list_elem_of_filter. split.
    + apply Helem in Hp.
      pose proof (sortedPotentialPairs_canonical w) as Hcan.
      eapply Forall_forall in Hcan; [|exact Hp]. simpl in Hcan. lia.
    + by apply Hdiff.
  - intros p. rewrite list_elem_of_filter, Helem, Hdiff. simpl. tauto.
Qed.

(** C2: adding the node id [n] to the moved shapes [N ≥ 1] times and then
    computing the overlapping pairs notifies exactly the same sequence of pairs
    as adding it once, and both runs return. *)
Theorem computeOverlappingPairs_moved_idempotent (w : World) (n : Z) (N : nat) :
  (1 ≤ N)%nat →
  callsOf ((times N (BroadPhaseSystem.addMovedCollisionShape n);;
            BroadPhaseSystem.computeOverlappingPairs) w) =
  callsOf ((BroadPhaseSystem.addMovedCollisionShape n;;
            BroadPhaseSystem.computeOverlappingPairs) w)
  ∧ is_Some (callsOf ((times N (BroadPhaseSystem.addMovedCollisionShape n);;
                       BroadPhaseSystem.computeOverlappingPairs) w)).
Proof.
  intros HN.
  rewrite (bind_quiet _ _ _ _ _ (times_addMovedCollisionShape N n w)).
  erewrite (bind_quiet (BroadPhaseSystem.addMovedCollisionShape n));
    [|reflexivity].
  split.
  - apply computeOverlappingPairs_moved_ext with (w := w).
    intros m. rewrite !elem_of_app, elem_of_replicate, list_elem_of_singleton.
    split; [tauto | intros [?|?]; [tauto | right; split; [done | lia]]].
  - destruct (computeOverlappingPairs_spec
       (withBuffers (mMovedShapes (mBroadPhaseSystem w) ++ replicate N n)
                    (mPotentialPairs (mBroadPhaseSystem w)) w))
      as (unique & -> & _). by eexists.
Qed.

(** C5: every pair in the potential-pairs buffer is stored as (min, max) of a
    moved node id and a node id overlapping it, the smaller id first, and the
    pairs notified to the narrow phase by one call of [computeOverlappingPairs]
    come in strictly increasing lexicographic order. *)
Theorem computeOverlappingPairs_canonical_order (w : World) :
  ∃ (w' : World) (notified : list BroadPhasePair),
    BroadPhaseSystem.computeOverlappingPairs w =
      Some (tt, w', notification w <$> notified)
    ∧ Forall (λ p, (collisionShape1ID p < collisionShape2ID p)%Z
                   ∧ ∃ m o, m ∈ mMovedShapes (mBroadPhaseSystem w)
                            ∧ o ∈ overlapping w m
                            ∧ collisionShape1ID p = Z.min m o
                            ∧ collisionShape2ID p = Z.max m o)
             (mPotentialPairs (mBroadPhaseSystem w'))
    ∧ StronglySorted pair_lt notified
    ∧ ∀ p, p ∈ notified ↔
           p ∈ mPotentialPairs (mBroadPhaseSystem w')
           ∧ bodyIdOf w (shape1Of w p) ≠ bodyIdOf w (shape2Of w p).
Proof.
  destruct (computeOverlappingPairs_spec w) as (unique & Hrun & Hsorted & Helem).
  eexists _, (filter (λ p, differentBodies w p) unique).
  split; [exact Hrun|]. split; [|split].
  - simpl. apply Forall_forall. intros p Hp. split.
    + pose proof (sortedPotentialPairs_canonical w) as Hcan.
      by eapply Forall_forall in Hcan.
    + apply sortedPotentialPairs_elem in Hp as (m & o & Hm & _ & Ho & _ & ->).
      by exists m, o.
  - by apply StronglySorted_filter_pairs.
  - intros p. rewrite list_elem_of_filter, Helem. simpl.
    unfold differentBodies. rewrite negb_True, Is_true_true, N.eqb_eq. tauto.
Qed.

(** ** Reading the component columns *)

Lemma row_Some c i r :
  row c i = Some r →
  mBodiesEntities c !! N.to_nat i = Some (rowBodyEntity r)
  ∧ mCollisionShapes c !! N.to_nat i = Some (rowCollisionShape r)
  ∧ mLocalToBodyTransforms c !! N.to_nat i = Some (rowLocalToBodyTransform r)
  ∧ mBroadPhaseIds c !! N.to_nat i = Some (rowBroadPhaseId r)
  ∧ mCollisionCategoryBits c !! N.to_nat i = Some (rowCollisionCategoryBits r)
  ∧ mCollideWithMaskBits c !! N.to_nat i = Some (rowCollideWithMaskBits r).
Proof.
  unfold row. intros Hrow.
  destruct (mBodiesEntities c !! _); [|done].
  destruct (mCollisionShapes c !! _); [|done].
  destruct (mLocalToBodyTransforms c !! _); [|done].
  destruct (mBroadPhaseIds c !! _); [|done].
  destruct (mCollisionCategoryBits c !! _); [|done].
  destruct (mCollideWithMaskBits c !! _); [|done].
  simpl in Hrow. by injection Hrow as <-.
Qed.

Lemma componentIndex_run w e i :
  mMapEntityToComponentIndex (mProxyShapesComponents w) !! e = Some i →
  ProxyShapeComponents.componentIndex e w = Some (i, w, []).
Proof. unfold ProxyShapeComponents.componentIndex. by intros ->. Qed.

Lemma read_run {A} (column : World → list A) i w a :
  column w !! N.to_nat i = Some a → read column i w = Some (a, w, []).
Proof. unfold read. by intros ->. Qed.

Section Getters.
Variables (w : World) (e : Entity) (i : N) (r : ProxyShapeRow).
Hypothesis Hindex :
  mMapEntityToComponentIndex (mProxyShapesComponents w) !! e = Some i.
Hypothesis Hrow : row (mProxyShapesComponents w) i = Some r.

Lemma getBroadPhaseId_run :
  ProxyShapeComponents.getBroadPhaseId e w = Some (rowBroadPhaseId r, w, []).
Proof using Hindex Hrow.
  unfold ProxyShapeComponents.getBroadPhaseId.
  rewrite (bind_silent _ _ _ _ (componentIndex_run _ _ _ Hindex)).
  apply read_run, (row_Some _ _ _ Hrow).
Qed.

Lemma getCollisionShape_run :
  ProxyShapeComponents.getCollisionShape e w =
  Some (rowCollisionShape r, w, []).
Proof using Hindex Hrow.
  unfold ProxyShapeComponents.getCollisionShape.
  rewrite (bind_silent _ _ _ _ (componentIndex_run _ _ _ Hindex)).
  apply read_run, (row_Some _ _ _ Hrow).
Qed.

Lemma getLocalToBodyTransform_run :
  ProxyShapeComponents.getLocalToBodyTransform e w =
  Some (rowLocalToBodyTransform r, w, []).
Proof using Hindex Hrow.
  unfold ProxyShapeComponents.getLocalToBodyTransform.
  rewrite (bind_silent _ _ _ _ (componentIndex_run _ _ _ Hindex)).
  apply read_run, (row_Some _ _ _ Hrow).
Qed.

Lemma getCollisionCategoryBits_run :
  ProxyShapeComponents.getCollisionCategoryBits e w =
  Some (rowCollisionCategoryBits r, w, []).
Proof using Hindex Hrow.
  unfold ProxyShapeComponents.getCollisionCategoryBits.
  rewrite (bind_silent _ _ _ _ (componentIndex_run _ _ _ Hindex)).
  apply read_run, (row_Some _ _ _ Hrow).
Qed.

End Getters.

(** ** [testOverlappingShapes] *)

(** C4: for two proxy shapes registered in the component store,
    [testOverlappingShapes] returns false when the broad-phase id of one of them
    is -1, and otherwise the result of the overlap test of the fat AABBs that
    the tree stores for the two node ids; it changes nothing and calls no
    collaborator. *)
Theorem testOverlappingShapes_fat_aabb_overlap
    (w : World) (shape1 shape2 : ProxyShape) (i1 i2 : N)
    (r1 r2 : ProxyShapeRow) :
  let c := mProxyShapesComponents w in
  let tree := mDynamicAABBTree (mBroadPhaseSystem w) in
  mMapEntityToComponentIndex c !! mEntity shape1 = Some i1 →
  row c i1 = Some r1 →
  mMapEntityToComponentIndex c !! mEntity shape2 = Some i2 →
  row c i2 = Some r2 →
  BroadPhaseSystem.testOverlappingShapes shape1 shape2 w =
  Some (if decide (rowBroadPhaseId r1 = (-1)%Z ∨ rowBroadPhaseId r2 = (-1)%Z)
        then false
        else AABB_testCollision (getFatAABB tree (rowBroadPhaseId r1))
                                (getFatAABB tree (rowBroadPhaseId r2)),
        w, []).
Proof.
  intros c tree Hi1 Hr1 Hi2 Hr2.
  unfold BroadPhaseSystem.testOverlappingShapes,
    BroadPhaseSystem.ProxyShape_getBroadPhaseId.
  rewrite (bind_silent _ _ _ _ (getBroadPhaseId_run _ _ _ _ Hi1 Hr1)).
  destruct (Z.eqb_spec (rowBroadPhaseId r1) (-1)) as [Heq1|Hne1].
  { rewrite decide_True by auto. done. }
  rewrite (bind_silent _ _ _ _ (getBroadPhaseId_run _ _ _ _ Hi2 Hr2)).
  destruct (Z.eqb_spec (rowBroadPhaseId r2) (-1)) as [Heq2|Hne2].
  { rewrite decide_True by auto. done. }
  rewrite decide_False by tauto.
  erewrite bind_silent; [|reflexivity].
  rewrite (bind_silent _ _ _ _ (getBroadPhaseId_run _ _ _ _ Hi1 Hr1)).
  rewrite (bind_silent _ _ _ _ (getBroadPhaseId_run _ _ _ _ Hi2 Hr2)).
  done.
Qed.

(** ** [updateProxyShape] *)

Lemma uint32_wrap_small n : (n < 2 ^ 32)%N → uint32_wrap n = n.
Proof. apply N.mod_small. Qed.

Lemma updateProxyShapesComponents_run w startIndex endIndex :
  let c := mProxyShapesComponents w in
  (startIndex ≤ endIndex)%N → (startIndex < nbComponents c)%N →
  (endIndex ≤ nbComponents c)%N →
  BroadPhaseSystem.updateProxyShapesComponents startIndex endIndex w =
  BroadPhaseSystem.updateProxyShapesLoop
    (N.to_nat (N.min endIndex (nbEnabledComponents c)
               - N.min startIndex (nbEnabledComponents c)))
    (N.min startIndex (nbEnabledComponents c)) w.
Proof.
  intros c H1 H2 H3. unfold BroadPhaseSystem.updateProxyShapesComponents.
  erewrite bind_silent; [|reflexivity].
  apply N.leb_le in H1. apply N.ltb_lt in H2. apply N.leb_le in H3.
  fold c. rewrite H1, H2, H3.
  do 3 (erewrite bind_silent; [|reflexivity]).
  erewrite bind_silent; [|reflexivity]. done.
Qed.

Lemma updateProxyShape_run w e i :
  let c := mProxyShapesComponents w in
  registeredAt c e i →
  BroadPhaseSystem.updateProxyShape e w =
  BroadPhaseSystem.updateProxyShapesLoop
    (N.to_nat (N.min (i + 1) (nbEnabledComponents c)
               - N.min i (nbEnabledComponents c)))
    (N.min i (nbEnabledComponents c)) w.
Proof.
  intros c (Hindex & Hi & HE & HN).
  unfold BroadPhaseSystem.updateProxyShape.
  rewrite (bind_silent _ _ _ _ (componentIndex_run _ _ _ Hindex)).
  rewrite uint32_wrap_small by lia.
  apply updateProxyShapesComponents_run; fold c; lia.
Qed.

Lemma updateProxyShape_on_disabled w e i :
  let c := mProxyShapesComponents w in
  registeredAt c e i → (nbEnabledComponents c ≤ i)%N →
  BroadPhaseSystem.updateProxyShape e w = Some (tt, w, []).
Proof.
  intros c Hreg Hi. rewrite (updateProxyShape_run w e i Hreg). fold c.
  replace (N.min (i + 1) (nbEnabledComponents c)
           - N.min i (nbEnabledComponents c))%N with 0%N by lia.
  done.
Qed.

Lemma updateProxyShapesComponent_run w i r :
  row (mProxyShapesComponents w) i = Some r →
  BroadPhaseSystem.updateProxyShapesComponent i w =
  if (rowBroadPhaseId r =? -1)%Z then Some (tt, w, [])
  else if (0 <=? rowBroadPhaseId r)%Z
       then Some (tt, rowUpdated w r,
                  [Call_computeAABB (rowCollisionShape r)
                                    (rowWorldTransform w r);
                   Call_updateObject (rowBroadPhaseId r) (rowWorldAABB w r)
                                     Vector3_zero])
       else None.
Proof.
  intros (Hbody & Hshape & Hlocal & Hid & _)%row_Some.
  unfold BroadPhaseSystem.updateProxyShapesComponent.
  rewrite (bind_silent _ _ _ _ (read_run _ _ _ _ Hid)).
  destruct (rowBroadPhaseId r =? -1)%Z; [done|]. cbn [negb].
  rewrite (bind_silent _ _ _ _ (read_run _ _ _ _ Hbody)).
  erewrite bind_silent; [|reflexivity].
  rewrite (bind_silent _ _ _ _ (read_run _ _ _ _ Hshape)).
  rewrite (bind_silent _ _ _ _ (read_run _ _ _ _ Hlocal)).
  unfold BroadPhaseSystem.updateProxyShapeInternal, rowUpdated, rowWorldAABB,
    rowWorldTransform.
  run_M.
  destruct (0 <=? rowBroadPhaseId r)%Z; [|done].
  destruct (updateObject _ _ _ _) as [[] tree']; done.
Qed.

Lemma updateProxyShape_on_enabled w e i r :
  let c := mProxyShapesComponents w in
  registeredAt c e i → (i < nbEnabledComponents c)%N → row c i = Some r →
  BroadPhaseSystem.updateProxyShape e w =
  if (rowBroadPhaseId r =? -1)%Z then Some (tt, w, [])
  else if (0 <=? rowBroadPhaseId r)%Z
       then Some (tt, rowUpdated w r,
                  [Call_computeAABB (rowCollisionShape r)
                                    (rowWorldTransform w r);
                   Call_updateObject (rowBroadPhaseId r) (rowWorldAABB w r)
                                     Vector3_zero])
       else None.
Proof.
  intros c Hreg Hi Hrow. rewrite (updateProxyShape_run w e i Hreg). fold c.
  replace (N.min (i + 1) (nbEnabledComponents c)
           - N.min i (nbEnabledComponents c))%N with 1%N by lia.
  rewrite N.min_l by lia.
  change (BroadPhaseSystem.updateProxyShapesLoop (N.to_nat 1) i)
    with (BroadPhaseSystem.updateProxyShapesComponent i;; mret tt : M unit).
  rewrite bind_run, (updateProxyShapesComponent_run w i r Hrow).
  destruct (rowBroadPhaseId r =? -1)%Z; [done|].
  destruct (0 <=? rowBroadPhaseId r)%Z; done.
Qed.

(** C3: for an entity registered at an enabled row whose broad-phase node id
    is not -1 (node ids other than -1 being indices, hence not negative),
    [updateProxyShape] computes the shape's world AABB by [computeAABB] on
    (body world transform * local-to-body transform), calls [updateObject] on
    the tree with that AABB and a zero displacement, and appends the node id to
    the moved shapes exactly when [updateObject] reports a re-insertion. *)
Theorem updateProxyShape_enabled_row
    (w : World) (e : Entity) (i : N) (r : ProxyShapeRow) :
  let c := mProxyShapesComponents w in
  let b := mBroadPhaseSystem w in
  let nodeId := rowBroadPhaseId r in
  let worldTransform :=
    Transform_mul (mTransformComponents w (rowBodyEntity r))
                  (rowLocalToBodyTransform r) in
  let aabb := CollisionShape_computeAABB (rowCollisionShape r) worldTransform in
  let result := updateObject (mDynamicAABBTree b) nodeId aabb Vector3_zero in
  registeredAt c e i → (i < nbEnabledComponents c)%N → row c i = Some r →
  nodeId ≠ (-1)%Z → (-1 ≤ nodeId)%Z →
  BroadPhaseSystem.updateProxyShape e w =
  Some (tt,
        set_mBroadPhaseSystem
          {| mDynamicAABBTree := result.2;
             mMovedShapes := if result.1 then mMovedShapes b ++ [nodeId]
                             else mMovedShapes b;
             mPotentialPairs := mPotentialPairs b |} w,
        [Call_computeAABB (rowCollisionShape r) worldTransform;
         Call_updateObject nodeId aabb Vector3_zero]).
Proof.
  intros c b nodeId worldTransform aabb result Hreg Hi Hrow Hne Hge.
  rewrite (updateProxyShape_on_enabled w e i r Hreg Hi Hrow).
  fold nodeId.
  destruct (Z.eqb_spec nodeId (-1)) as [|_]; [done|].
  destruct (Z.leb_spec 0 nodeId) as [_|]; [done | lia].
Qed.

(** C9: for an entity registered at a disabled row (a row at or beyond the
    enabled count), [updateProxyShape] returns without any effect: no AABB is
    computed, the tree is not updated, the moved shapes are unchanged. *)
Theorem updateProxyShape_disabled_row (w : World) (e : Entity) (i : N) :
  let c := mProxyShapesComponents w in
  registeredAt c e i → (nbEnabledComponents c ≤ i)%N →
  BroadPhaseSystem.updateProxyShape e w = Some (tt, w, []).
Proof. apply updateProxyShape_on_disabled. Qed.

(** ** [raycastBroadPhaseShape] *)

(** C6: for a leaf whose proxy shape is registered in the component store, if
    the raycast mask and the shape's category bits have no bit in common then
    [raycastAgainstShape] is not called and the callback returns the negative
    fraction -1; otherwise [raycastAgainstShape] is called once, on that shape
    and ray, and the callback returns the fraction it produced. *)
Theorem raycastBroadPhaseShape_category_filter
    (w : World) (this : BroadPhaseRaycastCallback.t) (nodeId : Z) (ray : Ray)
    (i : N) (r : ProxyShapeRow) :
  let c := mProxyShapesComponents w in
  let proxyShape :=
    getNodeDataPointer (mDynamicAABBTree (mBroadPhaseSystem w)) nodeId in
  let mask := BroadPhaseRaycastCallback.mRaycastWithCategoryMaskBits this in
  let test := BroadPhaseRaycastCallback.mRaycastTest this in
  mMapEntityToComponentIndex c !! mEntity proxyShape = Some i →
  row c i = Some r →
  (N.land mask (rowCollisionCategoryBits r) = 0%N →
   BroadPhaseRaycastCallback.raycastBroadPhaseShape this nodeId ray w =
     Some (((-1)%float, test), w, [])
   ∧ ((-1) <? 0)%float = true)
  ∧ (N.land mask (rowCollisionCategoryBits r) ≠ 0%N →
     BroadPhaseRaycastCallback.raycastBroadPhaseShape this nodeId ray w =
       Some (raycastAgainstShape test proxyShape ray, w,
             [Call_raycastAgainstShape proxyShape ray])).
Proof.
  intros c proxyShape mask test Hindex Hrow.
  unfold BroadPhaseRaycastCallback.raycastBroadPhaseShape.
  erewrite bind_silent; [|reflexivity].
  unfold ProxyShape.getCollisionCategoryBits.
  rewrite (bind_silent _ _ _ _
             (getCollisionCategoryBits_run _ _ _ _ Hindex Hrow)).
  fold mask test proxyShape. split.
  - intros ->. done.
  - intros Hne. apply N.eqb_neq in Hne. rewrite Hne. done.
Qed.

(** ** [ProxyShape::raycast] *)

(** C8: when the owning body is not active, [ProxyShape::raycast] returns false
    with the raycast-info record as the caller passed it, and the collision
    shape's [raycast] is not called. *)
Theorem raycast_inactive_body
    (w : World) (this : ProxyShape) (ray : Ray) (raycastInfo : RaycastInfo) :
  mIsActive (bodies w (mBody this)) = false →
  ProxyShape.raycast this ray raycastInfo w = Some ((false, raycastInfo), w, []).
Proof.
  intros Hactive. unfold ProxyShape.raycast.
  erewrite bind_silent; [|reflexivity]. by rewrite Hactive.
Qed.

(** C10: when the owning body is active (and the shape is registered in the
    component store), [ProxyShape::raycast] delegates to the collision shape
    and then overwrites [worldPoint] and [worldNormal] of the raycast-info
    record, whatever the collision shape answered: the point is mapped by the
    local-to-world transform, the normal by its orientation and normalised.
    This happens on a miss as on a hit. *)
Theorem raycast_overwrites_info
    (w : World) (this : ProxyShape) (ray : Ray) (raycastInfo : RaycastInfo)
    (i : N) (r : ProxyShapeRow) :
  let c := mProxyShapesComponents w in
  let localToWorld :=
    Transform_mul
      (mTransformComponents w (mBodyEntity (bodies w (mBody this))))
      (rowLocalToBodyTransform r) in
  let rayLocal :=
    {| point1 := Transform_mulVector (Transform_getInverse localToWorld)
                                     (point1 ray);
       point2 := Transform_mulVector (Transform_getInverse localToWorld)
                                     (point2 ray);
       maxFraction := maxFraction ray |} in
  let answer :=
    CollisionShape_raycast (rowCollisionShape r) rayLocal raycastInfo this in
  mIsActive (bodies w (mBody this)) = true →
  mMapEntityToComponentIndex c !! mEntity this = Some i →
  row c i = Some r →
  ProxyShape.raycast this ray raycastInfo w =
  Some ((answer.1,
         {| worldPoint :=
              Transform_mulVector localToWorld (worldPoint answer.2);
            worldNormal :=
              Vector3_normalize
                (Quaternion_mulVector (Transform_getOrientation localToWorld)
                                      (worldNormal answer.2));
            hitFraction := hitFraction answer.2 |}),
        w,
        [Call_CollisionShape_raycast (rowCollisionShape r) rayLocal this]).
Proof.
  intros c localToWorld rayLocal answer Hactive Hindex Hrow.
  unfold ProxyShape.raycast.
  erewrite bind_silent; [|reflexivity]. rewrite Hactive. cbn [negb].
  unfold ProxyShape.getLocalToWorldTransform.
  rewrite (bind_silent _ _ w localToWorld).
  2:{ erewrite bind_silent; [|reflexivity].
      erewrite bind_silent; [|reflexivity].
      rewrite (bind_silent _ _ _ _
                 (getLocalToBodyTransform_run _ _ _ _ Hindex Hrow)).
      done. }
  rewrite (bind_silent _ _ _ _ (getCollisionShape_run _ _ _ _ Hindex Hrow)).
  fold rayLocal. run_M. fold answer. by destruct answer.
Qed.

(** ** The setters of [ProxyShape] *)

Lemma write_run {A} (column : ProxyShapeComponents → list A) store i v w a :
  column (mProxyShapesComponents w) !! N.to_nat i = Some a →
  ProxyShapeComponents.write column store i v w =
  Some (tt,
        set_mProxyShapesComponents
          (store (<[N.to_nat i := v]> (column (mProxyShapesComponents w)))
                 (mProxyShapesComponents w)) w,
        []).
Proof.
  intros Hlookup%lookup_lt_Some. unfold ProxyShapeComponents.write.
  by rewrite decide_True.
Qed.

Lemma getBroadPhaseId_lookup w e i nodeId :
  mMapEntityToComponentIndex (mProxyShapesComponents w) !! e = Some i →
  mBroadPhaseIds (mProxyShapesComponents w) !! N.to_nat i = Some nodeId →
  ProxyShapeComponents.getBroadPhaseId e w = Some (nodeId, w, []).
Proof.
  intros Hindex Hid. unfold ProxyShapeComponents.getBroadPhaseId.
  rewrite (bind_silent _ _ _ _ (componentIndex_run _ _ _ Hindex)).
  by apply read_run.
Qed.

(** [updateProxyShape] returns for every registered entity whose row can be
    read, and touches the broad-phase system only. *)
Lemma updateProxyShape_returns w e i r :
  let c := mProxyShapesComponents w in
  registeredAt c e i → row c i = Some r → (-1 ≤ rowBroadPhaseId r)%Z →
  ∃ b' calls,
    BroadPhaseSystem.updateProxyShape e w =
    Some (tt, set_mBroadPhaseSystem b' w, calls).
Proof.
  intros c Hreg Hrow Hge.
  destruct (N.lt_ge_cases i (nbEnabledComponents c)) as [Hi|Hi].
  - rewrite (updateProxyShape_on_enabled w e i r Hreg Hi Hrow).
    destruct (Z.eqb_spec (rowBroadPhaseId r) (-1)) as [|Hne].
    + exists (mBroadPhaseSystem w), []. by destruct w.
    + destruct (Z.leb_spec 0 (rowBroadPhaseId r)) as [_|]; [|lia].
      by eexists _, _.
  - rewrite (updateProxyShape_on_disabled w e i Hreg Hi).
    exists (mBroadPhaseSystem w), []. by destruct w.
Qed.

(** C7: for a proxy shape registered in the component store,
    [setLocalToBodyTransform] stores the transform, clears the sleeping flag of
    the owning body and then runs the broad-phase update of the shape's entity
    (its trace and final world are those of [updateProxyShape] run after the
    two first steps), whereas [setCollisionCategoryBits] and
    [setCollideWithMaskBits] only store the bits in their column: the
    broad-phase system (tree, moved shapes) and the bodies are as before and no
    collaborator is called. *)
Theorem setters_wake_and_update
    (w : World) (this : ProxyShape) (i : N) (r : ProxyShapeRow)
    (transform : Transform) (bits : N) :
  let c := mProxyShapesComponents w in
  registeredAt c (mEntity this) i → row c i = Some r →
  (-1 ≤ rowBroadPhaseId r)%Z →
  (∃ woken w' calls,
     (ProxyShapeComponents.setLocalToBodyTransform (mEntity this) transform;;
      Body.setIsSleeping (mBody this) false) w = Some (tt, woken, [])
     ∧ BroadPhaseSystem.updateProxyShape (mEntity this) woken =
         Some (tt, w', calls)
     ∧ ProxyShape.setLocalToBodyTransform this transform w =
         Some (tt, w', calls)
     ∧ mIsSleeping (bodies w' (mBody this)) = false
     ∧ mLocalToBodyTransforms (mProxyShapesComponents w') !! N.to_nat i =
         Some transform)
  ∧ (let w' :=
       set_mProxyShapesComponents
         (ProxyShapeComponents.set_mCollisionCategoryBits
            (<[N.to_nat i := bits]> (mCollisionCategoryBits c)) c) w in
     ProxyShape.setCollisionCategoryBits this bits w = Some (tt, w', [])
     ∧ mBroadPhaseSystem w' = mBroadPhaseSystem w
     ∧ bodies w' = bodies w)
  ∧ (let w' :=
       set_mProxyShapesComponents
         (ProxyShapeComponents.set_mCollideWithMaskBits
            (<[N.to_nat i := bits]> (mCollideWithMaskBits c)) c) w in
     ProxyShape.setCollideWithMaskBits this bits w = Some (tt, w', [])
     ∧ mBroadPhaseSystem w' = mBroadPhaseSystem w
     ∧ bodies w' = bodies w).
Proof.
  intros c Hreg Hrow Hge.
  pose proof Hreg as (Hindex & Hi & HE & HN).
  pose proof (row_Some _ _ _ Hrow)
    as (Hbody & Hshape & Hlocal & Hid & Hcat & Hmask).
  split; [|split].
  - set (c' := ProxyShapeComponents.set_mLocalToBodyTransforms
                 (<[N.to_nat i := transform]> (mLocalToBodyTransforms c)) c).
    assert (ProxyShapeComponents.setLocalToBodyTransform
              (mEntity this) transform w =
            Some (tt, set_mProxyShapesComponents c' w, [])) as Hstore.
    { unfold ProxyShapeComponents.setLocalToBodyTransform.
      rewrite (bind_silent _ _ _ _ (componentIndex_run _ _ _ Hindex)).
      by apply write_run with (a := rowLocalToBodyTransform r). }
    assert (mLocalToBodyTransforms c' !! N.to_nat i = Some transform) as Hnew.
    { simpl. apply list_lookup_insert_eq. by eapply lookup_lt_Some. }
    set (r' := {| rowBodyEntity := rowBodyEntity r;
                  rowCollisionShape := rowCollisionShape r;
                  rowLocalToBodyTransform := transform;
                  rowBroadPhaseId := rowBroadPhaseId r;
                  rowCollisionCategoryBits := rowCollisionCategoryBits r;
                  rowCollideWithMaskBits := rowCollideWithMaskBits r |}).
    assert (row c' i = Some r') as Hrow'.
    { unfold row. rewrite Hnew. simpl. fold c.
      rewrite Hbody, Hshape, Hid, Hcat, Hmask. done. }
    set (woken :=
           set_bodies
             (λ p, if decide (p = mBody this)
                   then {| mID := mID (bodies w p);
                           mBodyEntity := mBodyEntity (bodies w p);
                           mIsActive := mIsActive (bodies w p);
                           mIsSleeping := false |}
                   else bodies w p)
             (set_mProxyShapesComponents c' w)).
    destruct (updateProxyShape_returns woken (mEntity this) i r')
      as (b' & calls & Hupdate); [exact Hreg | exact Hrow' | exact Hge |].
    exists woken, (set_mBroadPhaseSystem b' woken), calls. split; [|split; [exact Hupdate|split; [|split]]].
    + rewrite bind_run, Hstore. reflexivity.
    + unfold ProxyShape.setLocalToBodyTransform,
        CollisionDetection.updateProxyShape.
      rewrite (bind_quiet _ _ _ _ _ Hstore).
      rewrite (bind_quiet _ _ _ tt woken) by reflexivity.
      rewrite bind_run, Hupdate.
      erewrite bind_silent;
        [|by apply getBroadPhaseId_lookup with (i := i)
                                               (nodeId := rowBroadPhaseId r)].
      run_M. by rewrite app_nil_r.
    + simpl. by rewrite decide_True.
    + exact Hnew.
  - split; [|done]. unfold ProxyShape.setCollisionCategoryBits.
    erewrite bind_quiet.
    2:{ unfold ProxyShapeComponents.setCollisionCategoryBits.
        rewrite (bind_silent _ _ _ _ (componentIndex_run _ _ _ Hindex)).
        by eapply write_run. }
    erewrite bind_silent;
      [|by apply getBroadPhaseId_lookup with (i := i)
                                             (nodeId := rowBroadPhaseId r)].
    done.
  - split; [|done]. unfold ProxyShape.setCollideWithMaskBits.
    erewrite bind_quiet.
    2:{ unfold ProxyShapeComponents.setCollideWithMaskBits.
        rewrite (bind_silent _ _ _ _ (componentIndex_run _ _ _ Hindex)).
        by eapply write_run. }
    erewrite bind_silent;
      [|by apply getBroadPhaseId_lookup with (i := i)
                                             (nodeId := rowBroadPhaseId r)].
    done.
Qed.

End Results.

(** * The model at work on the lattice *)

Section LatticeRuns.
Import Lattice.

(** Node 1 moved: it overlaps nodes 0 and 2, which are on the other body. *)
Example computeOverlappingPairs_world0 :
  callsOf (BroadPhaseSystem.computeOverlappingPairs world0) =
  Some [Call_broadPhaseNotifyOverlappingPair proxy1 proxy3;
        Call_broadPhaseNotifyOverlappingPair proxy3 proxy2].
Proof. reflexivity. Qed.

(** Node 0 moved: of the nodes 1 and 2 that overlap it, node 2 is on the same
    body and is filtered out. *)
Example computeOverlappingPairs_same_body :
  callsOf (BroadPhaseSystem.computeOverlappingPairs
             (withBuffers [0%Z; 0%Z] [] world0)) =
  Some [Call_broadPhaseNotifyOverlappingPair proxy1 proxy3].
Proof. reflexivity. Qed.

(** Category 2 passes the mask of [callback0]: the shape of node 1 is handed
    to the raycast test. *)
Example raycastBroadPhaseShape_accepted :
  BroadPhaseRaycastCallback.raycastBroadPhaseShape callback0 1 ray0 world0 =
  Some ((0.5%float, [proxy3]), world0, [Call_raycastAgainstShape proxy3 ray0]).
Proof. reflexivity. Qed.

Lemma components_registered e i :
  mMapEntityToComponentIndex components !! e = Some i →
  (i < 3)%N → registeredAt components e i.
Proof. intros He Hi. repeat split; simpl; [done | lia..]. Qed.

Lemma computeOverlappingPairs_moved_idempotent_witness :
  (1 ≤ 3)%nat
  ∧ callsOf ((times 3 (BroadPhaseSystem.addMovedCollisionShape 2);;
              BroadPhaseSystem.computeOverlappingPairs) world0) =
    callsOf ((BroadPhaseSystem.addMovedCollisionShape 2;;
              BroadPhaseSystem.computeOverlappingPairs) world0).
Proof.
  split; [lia|].
  apply (computeOverlappingPairs_moved_idempotent world0 2 3). lia.
Defined.

Lemma updateProxyShape_enabled_row_witness :
  registeredAt components 1 0
  ∧ (0 < nbEnabledComponents components)%N
  ∧ row components 0 = Some row0
  ∧ BroadPhaseSystem.updateProxyShape 1%N world0 =
    Some (tt, world0,
          [Call_computeAABB 1%Z (0, 0, 0)%Z;
           Call_updateObject 0 ((-1, -1, -1), (1, 1, 1))%Z (0, 0, 0)%Z]).
Proof.
  assert (registeredAt components 1 0) as Hreg
    by (apply components_registered; [reflexivity | lia]).
  assert (0 < nbEnabledComponents components)%N as Hi by (simpl; lia).
  split; [exact Hreg|]. split; [exact Hi|]. split; [reflexivity|].
  refine (updateProxyShape_enabled_row world0 1 0 row0 Hreg Hi eq_refl _ _);
    simpl; lia.
Defined.

Lemma updateProxyShape_disabled_row_witness :
  registeredAt components 2 2
  ∧ (nbEnabledComponents components ≤ 2)%N
  ∧ BroadPhaseSystem.updateProxyShape 2%N world0 = Some (tt, world0, []).
Proof.
  assert (registeredAt components 2 2) as Hreg
    by (apply components_registered; [reflexivity | lia]).
  assert (nbEnabledComponents components ≤ 2)%N as Hi by (simpl; lia).
  split; [exact Hreg|]. split; [exact Hi|].
  exact (updateProxyShape_disabled_row world0 2 2 Hreg Hi).
Defined.

Lemma testOverlappingShapes_fat_aabb_overlap_witness :
  mMapEntityToComponentIndex components !! mEntity proxy1 = Some 0%N
  ∧ row components 0 = Some row0
  ∧ mMapEntityToComponentIndex components !! mEntity proxy3 = Some 1%N
  ∧ row components 1 = Some row1
  ∧ BroadPhaseSystem.testOverlappingShapes proxy1 proxy3 world0 =
    Some (true, world0, []).
Proof.
  do 4 (split; [reflexivity|]).
  exact (testOverlappingShapes_fat_aabb_overlap world0 proxy1 proxy3 0 1
           row0 row1 eq_refl eq_refl eq_refl eq_refl).
Defined.

Lemma raycastBroadPhaseShape_category_filter_witness :
  mMapEntityToComponentIndex components !! mEntity proxy1 = Some 0%N
  ∧ row components 0 = Some row0
  ∧ N.land 2 (rowCollisionCategoryBits row0) = 0%N
  ∧ BroadPhaseRaycastCallback.raycastBroadPhaseShape callback0 0 ray0 world0 =
    Some (((-1)%float, []), world0, []).
Proof.
  do 3 (split; [reflexivity|]).
  exact (proj1 (proj1 (raycastBroadPhaseShape_category_filter
                         world0 callback0 0 ray0 0 row0 eq_refl eq_refl)
                      eq_refl)).
Defined.

Lemma setters_wake_and_update_witness :
  registeredAt components 3 1
  ∧ row components 1 = Some row1
  ∧ (-1 ≤ rowBroadPhaseId row1)%Z
  ∧ (∃ w' calls,
       ProxyShape.setLocalToBodyTransform proxy3 (4, 0, 0)%Z world0 =
         Some (tt, w', calls)
       ∧ mIsSleeping (bodies w' 20%N) = false)
  ∧ callsOf (ProxyShape.setCollisionCategoryBits proxy3 4 world0) = Some []
  ∧ callsOf (ProxyShape.setCollideWithMaskBits proxy3 4 world0) = Some [].
Proof.
  assert (registeredAt components 3 1) as Hreg
    by (apply components_registered; [reflexivity | lia]).
  assert (-1 ≤ rowBroadPhaseId row1)%Z as Hge by (simpl; lia).
  split; [exact Hreg|]. split; [reflexivity|]. split; [exact Hge|].
  destruct (setters_wake_and_update world0 proxy3 1 row1 (4, 0, 0)%Z 4
              Hreg eq_refl Hge)
    as ((woken & w' & calls & _ & _ & Hset & Hawake & _)
        & (Hcat & _) & (Hmask & _)).
  split; [by exists w', calls|].
  split; [by rewrite Hcat | by rewrite Hmask].
Defined.

Lemma raycast_inactive_body_witness :
  mIsActive (bodies world0 (mBody proxy3)) = false
  ∧ ProxyShape.raycast proxy3 ray0 info0 world0 =
    Some ((false, info0), world0, []).
Proof.
  split; [reflexivity|].
  exact (raycast_inactive_body world0 proxy3 ray0 info0 eq_refl).
Defined.

(** The instance is a miss: the ray starts outside the cube of [proxy2], the
    cube answers false and leaves the record alone, and [raycast] returns the
    record with another point and another normal than the caller passed. *)
Lemma raycast_overwrites_info_witness :
  mIsActive (bodies world0 (mBody proxy2)) = true
  ∧ mMapEntityToComponentIndex components !! mEntity proxy2 = Some 2%N
  ∧ row components 2 = Some row2
  ∧ ProxyShape.raycast proxy2 ray0 info0 world0 =
    Some ((false,
           {| worldPoint := (7, 8, 7)%Z; worldNormal := (0, 0, 1)%Z;
              hitFraction := 1%float |}),
          world0,
          [Call_CollisionShape_raycast 1%Z
             {| point1 := (5, -1, 0)%Z; point2 := (9, -1, 0)%Z;
                maxFraction := 1%float |} proxy2]).
Proof.
  do 3 (split; [reflexivity|]).
  exact (raycast_overwrites_info world0 proxy2 ray0 info0 2 row2
           eq_refl eq_refl eq_refl).
Defined.

(** On that miss the caller's record is not left as it was. *)
Example raycast_miss_changes_info :
  ∃ info', ProxyShape.raycast proxy2 ray0 info0 world0 =
             Some ((false, info'), world0,
                   [Call_CollisionShape_raycast 1%Z
                      {| point1 := (5, -1, 0)%Z; point2 := (9, -1, 0)%Z;
                         maxFraction := 1%float |} proxy2])
           ∧ worldPoint info' ≠ worldPoint info0
           ∧ worldNormal info' ≠ worldNormal info0.
Proof. eexists. split; [reflexivity|]. by split. Qed.

End LatticeRuns.

(** * Further results *)

Section FurtherResults.
Context `{Math : Mathematics} `{Shapes : !CollisionShapeInterface}.
Context `{Trees : !DynamicAABBTreeInterface}.
Context `{Tests : !RaycastTestInterface}.
Context `{Leaves : !DynamicAABBTreeLeaves}.
Context `{PointTest : !CollisionShapePointTest}.

(** ** More on [computeOverlappingPairs] *)

Lemma potentialPairsOf_app w moved acc :
  potentialPairsOf w moved acc = acc ++ potentialPairsOf w moved [].
Proof.
  assert (∀ m nodes acc,
            BroadPhaseSystem.addOverlappingNodesLoop m nodes acc =
            acc ++ BroadPhaseSystem.addOverlappingNodesLoop m nodes [])
    as Hloop.
  { intros m nodes. induction nodes as [|d nodes IH]; intros acc'; simpl.
    - by rewrite app_nil_r.
    - rewrite IH. rewrite (IH (if negb _ then _ else _)).
      destruct (negb _); simpl; [by rewrite <- app_assoc | done]. }
  revert acc. induction moved as [|m moved IH]; intros acc; simpl.
  - by rewrite app_nil_r.
  - rewrite IH. rewrite (IH (if (m =? -1)%Z then _ else _)).
    destruct (m =? -1)%Z; [done|].
    rewrite Hloop. by rewrite <- app_assoc.
Qed.

Lemma potentialPairsOf_nothing_moved w moved :
  Forall (λ m, m = (-1)%Z) moved → potentialPairsOf w moved [] = [].
Proof.
  induction 1 as [|m moved -> _ IH]; simpl; done.
Qed.

(** X1: [computeOverlappingPairs] always returns; it empties the moved shapes,
    leaves the tree, the component columns, the bodies and the transforms as
    they were, and leaves in the potential-pairs buffer the candidate pairs of
    this sweep, duplicates included, in nondecreasing order. *)
Theorem computeOverlappingPairs_resets_moved_shapes (w : World) :
  ∃ (w' : World) (calls : list Call),
    BroadPhaseSystem.computeOverlappingPairs w = Some (tt, w', calls)
    ∧ mMovedShapes (mBroadPhaseSystem w') = []
    ∧ mDynamicAABBTree (mBroadPhaseSystem w') =
      mDynamicAABBTree (mBroadPhaseSystem w)
    ∧ mProxyShapesComponents w' = mProxyShapesComponents w
    ∧ bodies w' = bodies w
    ∧ mTransformComponents w' = mTransformComponents w
    ∧ mPotentialPairs (mBroadPhaseSystem w') ≡ₚ
      potentialPairsOf w (mMovedShapes (mBroadPhaseSystem w)) []
    ∧ StronglySorted pair_le (mPotentialPairs (mBroadPhaseSystem w')).
Proof.
  destruct (computeOverlappingPairs_spec w) as (unique & Hrun & _).
  eexists _, _. split; [exact Hrun|]. simpl.
  repeat split; try done.
  - apply std_sort_Permutation.
  - apply std_sort_sorted.
Qed.

(** X2: when no shape has moved (the moved shapes are empty or hold only -1),
    [computeOverlappingPairs] notifies nothing and leaves both buffers empty,
    whatever the potential-pairs buffer held before. *)
Theorem computeOverlappingPairs_nothing_moved (w : World) :
  Forall (λ m, m = (-1)%Z) (mMovedShapes (mBroadPhaseSystem w)) →
  BroadPhaseSystem.computeOverlappingPairs w =
  Some (tt, withBuffers [] [] w, []).
Proof.
  intros Hmoved. rewrite computeOverlappingPairs_run.
  unfold sortedPotentialPairs.
  by rewrite (potentialPairsOf_nothing_moved _ _ Hmoved).
Qed.

(** X3: a second [computeOverlappingPairs] right after a first one notifies
    nothing: the two runs in a row have the trace of the first. *)
Theorem computeOverlappingPairs_twice (w : World) :
  callsOf ((BroadPhaseSystem.computeOverlappingPairs;;
            BroadPhaseSystem.computeOverlappingPairs) w) =
  callsOf (BroadPhaseSystem.computeOverlappingPairs w)
  ∧ is_Some (callsOf (BroadPhaseSystem.computeOverlappingPairs w)).
Proof.
  destruct (computeOverlappingPairs_spec w) as (unique & Hrun & _).
  simpl in Hrun. rewrite bind_run, Hrun.
  rewrite computeOverlappingPairs_run. unfold sortedPotentialPairs. simpl.
  split; [by rewrite app_nil_r | by eexists].
Qed.

(** X4: when all the proxy shapes in the tree are on bodies with one and the
    same id, [computeOverlappingPairs] notifies nothing, whatever overlaps. *)
Theorem computeOverlappingPairs_same_body_filter (w : World) :
  (∀ a b : Z,
     bodyIdOf w (getNodeDataPointer (mDynamicAABBTree (mBroadPhaseSystem w)) a)
     = bodyIdOf w
         (getNodeDataPointer (mDynamicAABBTree (mBroadPhaseSystem w)) b)) →
  callsOf (BroadPhaseSystem.computeOverlappingPairs w) = Some [].
Proof.
  intros Hsame.
  destruct (computeOverlappingPairs_spec w) as (unique & -> & _). simpl.
  destruct (filter (λ p, differentBodies w p) unique) as [|p l] eqn:Hfilter;
    [done|].
  assert (p ∈ filter (λ p, differentBodies w p) unique) as Hp
    by (rewrite Hfilter; by left).
  apply list_elem_of_filter in Hp as [Hp _].
  unfold differentBodies, shape1Of, shape2Of in Hp.
  rewrite (Hsame (collisionShape1ID p) (collisionShape2ID p)) in Hp.
  by rewrite N.eqb_refl in Hp.
Qed.

(** X5: the node-id pairs notified by [computeOverlappingPairs] are exactly
    the pairs (min m o, max m o) of a moved node id [m] other than -1 and a
    node id [o] other than [m] that the tree reports as overlapping the fat
    AABB of [m], whose two proxy shapes are on bodies with different ids; each
    of them is notified once. *)
Theorem computeOverlappingPairs_notifies_every_overlap (w : World) :
  ∃ (w' : World) (notified : list BroadPhasePair),
    BroadPhaseSystem.computeOverlappingPairs w =
      Some (tt, w', notification w <$> notified)
    ∧ NoDup notified
    ∧ ∀ p, p ∈ notified ↔
        (∃ m o, m ∈ mMovedShapes (mBroadPhaseSystem w) ∧ m ≠ (-1)%Z
                ∧ o ∈ overlapping w m ∧ o ≠ m
                ∧ collisionShape1ID p = Z.min m o
                ∧ collisionShape2ID p = Z.max m o)
        ∧ bodyIdOf w (shape1Of w p) ≠ bodyIdOf w (shape2Of w p).
Proof.
  destruct (computeOverlappingPairs_spec w) as (unique & Hrun & Hsorted & Helem).
  eexists _, (filter (λ p, differentBodies w p) unique).
  split; [exact Hrun|]. split.
  - apply NoDup_filter.
    clear Hrun Helem. induction Hsorted as [|p l Hl IH Hp]; constructor; [|done].
    intros Hin. eapply Forall_forall in Hp; [|exact Hin].
    by apply pair_lt_irrefl in Hp.
  - intros p. rewrite list_elem_of_filter, Helem, sortedPotentialPairs_elem.
    unfold differentBodies. rewrite negb_True, Is_true_true, N.eqb_eq.
    split.
    + intros [Hd (m & o & Hm & Hne & Ho & Hom & ->)]. split; [|done].
      by exists m, o.
    + intros [(m & o & Hm & Hne & Ho & Hom & H1 & H2) Hd]. split; [done|].
      exists m, o. repeat split; try done. by apply pair_eq.
Qed.

(** X6: the notifications of [computeOverlappingPairs] depend on the moved
    shapes only through the set of their node ids, and not at all on what the
    potential-pairs buffer held before the call: two worlds that differ in the
    order or the multiplicity of the moved shapes, or in the old buffer, give
    the same trace. *)
Theorem computeOverlappingPairs_moved_order_irrelevant
    (w : World) (moved1 moved2 : list Z) (pairs1 pairs2 : list BroadPhasePair) :
  (∀ m, m ∈ moved1 ↔ m ∈ moved2) →
  callsOf (BroadPhaseSystem.computeOverlappingPairs
             (withBuffers moved1 pairs1 w)) =
  callsOf (BroadPhaseSystem.computeOverlappingPairs
             (withBuffers moved2 pairs2 w)).
Proof. apply computeOverlappingPairs_moved_ext. Qed.

(** X7: the notifications of [computeOverlappingPairs] do not depend on the
    order in which the tree reports the overlapping nodes: a tree with the
    same payloads that reports, for every moved node, the same node ids (in
    any order, any number of times) gives the same trace. *)
Theorem computeOverlappingPairs_report_order_irrelevant
    (w : World) (tree2 : DynamicAABBTree) :
  let b := mBroadPhaseSystem w in
  let w2 := set_mBroadPhaseSystem (set_mDynamicAABBTree tree2 b) w in
  (∀ n, getNodeDataPointer tree2 n = getNodeDataPointer (mDynamicAABBTree b) n) →
  (∀ m o, m ∈ mMovedShapes b → o ∈ overlapping w2 m ↔ o ∈ overlapping w m) →
  callsOf (BroadPhaseSystem.computeOverlappingPairs w2) =
  callsOf (BroadPhaseSystem.computeOverlappingPairs w).
Proof.
  intros b w2 Hpayload Hreport.
  destruct (computeOverlappingPairs_spec w)
    as (unique & -> & Hsorted & Helem).
  destruct (computeOverlappingPairs_spec w2)
    as (unique2 & -> & Hsorted2 & Helem2).
  assert (unique2 = unique) as ->.
  { apply strictly_sorted_unique; [done..|].
    intros p. rewrite Helem, Helem2, !sortedPotentialPairs_elem.
    split; intros (m & o & Hm & Hne & Ho & H); exists m, o;
      (split; [exact Hm|]; split; [exact Hne|]; split; [|exact H]);
      by apply (Hreport m o Hm). }
  simpl. f_equal.
  assert (∀ p, notification w2 p = notification w p) as Hnotif.
  { intros p. unfold notification, shape1Of, shape2Of. simpl.
    by rewrite !Hpayload. }
  assert (∀ p, differentBodies w2 p = differentBodies w p) as Hdiff.
  { intros p. unfold differentBodies, bodyIdOf, shape1Of, shape2Of. simpl.
    by rewrite !Hpayload. }
  clear Hsorted Hsorted2 Helem Helem2.
  induction unique as [|p l IH]; [done|].
  rewrite !filter_cons, Hdiff.
  destruct (decide (differentBodies w p)); simpl; [|exact IH].
  rewrite Hnotif. f_equal. exact IH.
Qed.

(** ** More on the update of the proxy shapes *)

Ltac unfold_M :=
  cbv beta iota zeta delta
    [mbind M_bind mret M_ret Assert gets modify call modifyBroadPhase
     BroadPhaseSystem.getTree Body.getId Body.getEntity Body.isActive].

Lemma bind_Some {A B} (m : M A) (f : A → M B) w b w2 calls :
  (m ≫= f) w = Some (b, w2, calls) →
  ∃ a w1 calls1 calls2,
    m w = Some (a, w1, calls1) ∧ f a w1 = Some (b, w2, calls2)
    ∧ calls = calls1 ++ calls2.
Proof.
  rewrite bind_run. destruct (m w) as [[[a w1] calls1]|]; [|done].
  destruct (f a w1) as [[[b' w2'] calls2]|] eqn:Hf; [|done].
  intros [= -> -> <-]. by exists a, w1, calls1, calls2.
Qed.

Lemma broadPhaseUpdateOf_refl w : broadPhaseUpdateOf w w.
Proof. repeat split. exists []. by rewrite app_nil_r. Qed.

Lemma broadPhaseUpdateOf_trans w1 w2 w3 :
  broadPhaseUpdateOf w1 w2 → broadPhaseUpdateOf w2 w3 →
  broadPhaseUpdateOf w1 w3.
Proof.
  intros (Hb & Hc & Ht & Hp & added & Hm) (Hb' & Hc' & Ht' & Hp' & added' & Hm').
  repeat split; try congruence.
  exists (added ++ added'). by rewrite Hm', Hm, app_assoc.
Qed.

Lemma updateProxyShapesComponent_frame i w w' calls :
  BroadPhaseSystem.updateProxyShapesComponent i w = Some (tt, w', calls) →
  broadPhaseUpdateOf w w' ∧ Forall isUpdateCall calls.
Proof.
  unfold BroadPhaseSystem.updateProxyShapesComponent,
    BroadPhaseSystem.updateProxyShapeInternal,
    BroadPhaseSystem.addMovedCollisionShape, read.
  unfold_M.
  intros Hrun.
  destruct (mBroadPhaseIds (mProxyShapesComponents w) !! N.to_nat i)
    as [nodeId|]; [|done].
  destruct (negb (nodeId =? -1)%Z); simpl in Hrun.
  2:{ injection Hrun as <- <-. split; [apply broadPhaseUpdateOf_refl | done]. }
  destruct (mBodiesEntities (mProxyShapesComponents w) !! N.to_nat i)
    as [bodyEntity|]; [|done].
  destruct (mCollisionShapes (mProxyShapesComponents w) !! N.to_nat i)
    as [shape|]; [|done].
  destruct (mLocalToBodyTransforms (mProxyShapesComponents w) !! N.to_nat i)
    as [localToBody|]; [|done].
  destruct (0 <=? nodeId)%Z; [|done]. simpl in Hrun.
  destruct (updateObject _ _ _ _) as [[] tree']; simpl in Hrun;
    injection Hrun as <- <-.
  - split; [|by repeat constructor]. repeat split. by eexists.
  - split; [|by repeat constructor]. repeat split. exists [].
    by rewrite app_nil_r.
Qed.

Lemma updateProxyShapesLoop_frame count i w w' calls :
  BroadPhaseSystem.updateProxyShapesLoop count i w = Some (tt, w', calls) →
  broadPhaseUpdateOf w w' ∧ Forall isUpdateCall calls.
Proof.
  revert i w calls. induction count as [|count IH]; intros i w calls; simpl.
  - intros [= <- <-]. split; [apply broadPhaseUpdateOf_refl | done].
  - intros ([] & w1 & calls1 & calls2 & Hstep & Hrest & ->)%bind_Some.
    apply updateProxyShapesComponent_frame in Hstep as [Hframe1 Hcalls1].
    apply IH in Hrest as [Hframe2 Hcalls2].
    split; [by eapply broadPhaseUpdateOf_trans | by apply Forall_app].
Qed.

Lemma updateProxyShapesComponents_keeps
    (startIndex endIndex : N) (w w' : World) (calls : list Call) :
  BroadPhaseSystem.updateProxyShapesComponents startIndex endIndex w =
    Some (tt, w', calls) →
  broadPhaseUpdateOf w w' ∧ Forall isUpdateCall calls.
Proof.
  unfold BroadPhaseSystem.updateProxyShapesComponents.
  erewrite bind_silent; [|reflexivity].
  intros ([] & w1 & c1 & c2 & H1 & Hrun & ->)%bind_Some.
  unfold Assert in H1. destruct (_ <=? _)%N; [|done]. injection H1 as <- <-.
  apply bind_Some in Hrun as ([] & w1 & c1 & c2' & H1 & Hrun & ->).
  unfold Assert in H1. destruct (_ <? _)%N; [|done]. injection H1 as <- <-.
  apply bind_Some in Hrun as ([] & w1 & c1 & c2'' & H1 & Hrun & ->).
  unfold Assert in H1. destruct (_ <=? _)%N; [|done]. injection H1 as <- <-.
  erewrite bind_silent in Hrun; [|reflexivity]. simpl.
  by apply updateProxyShapesLoop_frame in Hrun.
Qed.

(** X8: whenever [updateProxyShapesComponents] returns (and so whenever
    [updateProxyShape] or [updateProxyShapes] does), the bodies, the component
    columns, the transforms and the potential-pairs buffer are as before, the
    moved shapes have only been appended to, and the only calls made are
    [computeAABB] on collision shapes and [updateObject] on the tree: the
    narrow phase is never notified. *)
Theorem updateProxyShapesComponents_frame
    (startIndex endIndex : N) (w w' : World) (calls : list Call) :
  BroadPhaseSystem.updateProxyShapesComponents startIndex endIndex w =
    Some (tt, w', calls) →
  broadPhaseUpdateOf w w' ∧ Forall isUpdateCall calls.
Proof. apply updateProxyShapesComponents_keeps. Qed.

(** X9: on a component store without any component, [updateProxyShapes] does
    not return: the assertion [startIndex < getNbComponents()] of
    [updateProxyShapesComponents] fails for the range [0, 0). *)
Theorem updateProxyShapes_empty_store_aborts (w : World) :
  nbComponents (mProxyShapesComponents w) = 0%N →
  BroadPhaseSystem.updateProxyShapes w = None.
Proof.
  intros Hempty. unfold BroadPhaseSystem.updateProxyShapes.
  erewrite bind_silent; [|reflexivity].
  unfold BroadPhaseSystem.updateProxyShapesComponents.
  erewrite bind_silent; [|reflexivity].
  rewrite (proj2 (N.leb_le 0 _)) by lia.
  erewrite bind_silent; [|reflexivity]. by rewrite Hempty.
Qed.

Lemma updateProxyShapesLoop_rows (count : nat) (i : N) (w : World) :
  let c := mProxyShapesComponents w in
  (i + N.of_nat count ≤ nbEnabledComponents c)%N →
  (nbEnabledComponents c < 2 ^ 32)%N →
  (∀ j, (j < nbEnabledComponents c)%N →
        ∃ r, row c j = Some r ∧ (-1 ≤ rowBroadPhaseId r)%Z) →
  ∃ w', BroadPhaseSystem.updateProxyShapesLoop count i w =
          Some (tt, w', concat (rowCalls w <$> rowsFrom c i count))
        ∧ broadPhaseUpdateOf w w'.
Proof.
  revert i w. induction count as [|count IH]; intros i w c Hi HE Hrows.
  - exists w. split; [done | apply broadPhaseUpdateOf_refl].
  - destruct (Hrows i) as (r & Hrow & Hge); [lia|].
    assert (∃ w1, BroadPhaseSystem.updateProxyShapesComponent i w =
                    Some (tt, w1, rowCalls w r)
                  ∧ mProxyShapesComponents w1 = c
                  ∧ mTransformComponents w1 = mTransformComponents w
                  ∧ broadPhaseUpdateOf w w1) as (w1 & Hstep & Hc1 & Ht1 & Hf1).
    { rewrite (updateProxyShapesComponent_run w i r Hrow). unfold rowCalls.
      destruct (Z.eqb_spec (rowBroadPhaseId r) (-1)) as [|Hne].
      - exists w. repeat split. exists []. by rewrite app_nil_r.
      - destruct (Z.leb_spec 0 (rowBroadPhaseId r)) as [_|]; [|lia].
        exists (rowUpdated w r). split; [done|]. split; [done|]. split; [done|].
        repeat split. unfold rowUpdated. simpl.
        destruct (updateObject _ _ _ _).1; [by eexists|].
        exists []. by rewrite app_nil_r. }
    destruct (IH (uint32_wrap (i + 1)) w1) as (w' & Hrest & Hf2).
    { rewrite Hc1. fold c. rewrite uint32_wrap_small by lia. lia. }
    { by rewrite Hc1. }
    { by rewrite Hc1. }
    exists w'. split; [|by eapply broadPhaseUpdateOf_trans].
    simpl. rewrite bind_run, Hstep, Hrest, Hc1. fold c. rewrite Hrow.
    rewrite uint32_wrap_small by lia.
    assert (∀ l, concat (rowCalls w1 <$> l) = concat (rowCalls w <$> l))
      as Hcalls.
    { induction l as [|r' l IHl]; [done|]. rewrite !fmap_cons. simpl.
      rewrite IHl. f_equal.
      unfold rowCalls, rowWorldAABB, rowWorldTransform. by rewrite Ht1. }
    by rewrite Hcalls.
Qed.

(** X10: on a store that holds components, whose enabled rows can all be read
    and hold node ids that are -1 or indices, [updateProxyShapes] returns and
    visits the enabled rows in order and no other row: its trace is, row after
    row, the [computeAABB] and [updateObject] calls of the enabled rows whose
    node id is not -1, with the world AABB of that row and a zero
    displacement. *)
Theorem updateProxyShapes_visits_enabled_rows (w : World) :
  let c := mProxyShapesComponents w in
  (0 < nbComponents c)%N →
  (nbEnabledComponents c ≤ nbComponents c)%N →
  (nbComponents c < 2 ^ 32)%N →
  (∀ j, (j < nbEnabledComponents c)%N →
        ∃ r, row c j = Some r ∧ (-1 ≤ rowBroadPhaseId r)%Z) →
  ∃ w', BroadPhaseSystem.updateProxyShapes w =
          Some (tt, w',
                concat (rowCalls w <$>
                        rowsFrom c 0 (N.to_nat (nbEnabledComponents c))))
        ∧ broadPhaseUpdateOf w w'.
Proof.
  intros c HN HE H32 Hrows.
  unfold BroadPhaseSystem.updateProxyShapes.
  erewrite bind_silent; [|reflexivity]. fold c.
  rewrite updateProxyShapesComponents_run; fold c; [|lia..].
  rewrite N.min_id, N.min_0_l, N.sub_0_r.
  apply updateProxyShapesLoop_rows; fold c; [lia | lia | done].
Qed.

(** X11: for an entity registered at an enabled row, [updateProxyShape] does
    nothing at all when the row's node id is -1 (the shape is not in the
    tree), and does not return when the node id is below -1 (the assertion
    [broadPhaseId >= 0] of [updateProxyShapeInternal] fails). *)
Theorem updateProxyShape_enabled_row_without_node
    (w : World) (e : Entity) (i : N) (r : ProxyShapeRow) :
  let c := mProxyShapesComponents w in
  registeredAt c e i → (i < nbEnabledComponents c)%N → row c i = Some r →
  (rowBroadPhaseId r = (-1)%Z →
   BroadPhaseSystem.updateProxyShape e w = Some (tt, w, []))
  ∧ ((rowBroadPhaseId r < -1)%Z →
     BroadPhaseSystem.updateProxyShape e w = None).
Proof.
  intros c Hreg Hi Hrow.
  rewrite (updateProxyShape_on_enabled w e i r Hreg Hi Hrow). split.
  - by intros ->.
  - intros Hlt. destruct (Z.eqb_spec (rowBroadPhaseId r) (-1)); [lia|].
    destruct (Z.leb_spec 0 (rowBroadPhaseId r)); [lia | done].
Qed.

(** ** Rows after a write *)

Lemma row_lookups c i r :
  mBodiesEntities c !! N.to_nat i = Some (rowBodyEntity r) →
  mCollisionShapes c !! N.to_nat i = Some (rowCollisionShape r) →
  mLocalToBodyTransforms c !! N.to_nat i = Some (rowLocalToBodyTransform r) →
  mBroadPhaseIds c !! N.to_nat i = Some (rowBroadPhaseId r) →
  mCollisionCategoryBits c !! N.to_nat i = Some (rowCollisionCategoryBits r) →
  mCollideWithMaskBits c !! N.to_nat i = Some (rowCollideWithMaskBits r) →
  row c i = Some r.
Proof.
  intros H1 H2 H3 H4 H5 H6. unfold row.
  rewrite H1, H2, H3, H4, H5, H6. simpl. by destruct r.
Qed.

Lemma N_to_nat_ne i j : i ≠ j → N.to_nat i ≠ N.to_nat j.
Proof. lia. Qed.

Ltac row_after_write Hrow :=
  pose proof (row_Some _ _ _ Hrow) as (? & ? & ? & ? & ? & ?);
  apply row_lookups; simpl; try done;
  apply list_lookup_insert_eq; by eapply lookup_lt_Some.

Ltac row_elsewhere Hne :=
  unfold row; simpl;
  by rewrite (list_lookup_insert_ne _ _ _ _ (N_to_nat_ne _ _ Hne)).

Lemma row_withLocalToBodyTransform c i r transform :
  row c i = Some r →
  row (withLocalToBodyTransform i transform c) i =
  Some (rowWithLocalToBodyTransform transform r).
Proof. intros Hrow. row_after_write Hrow. Qed.

Lemma row_withCollisionCategoryBits c i r bits :
  row c i = Some r →
  row (withCollisionCategoryBits i bits c) i =
  Some (rowWithCollisionCategoryBits bits r).
Proof. intros Hrow. row_after_write Hrow. Qed.

Lemma row_withCollideWithMaskBits c i r bits :
  row c i = Some r →
  row (withCollideWithMaskBits i bits c) i =
  Some (rowWithCollideWithMaskBits bits r).
Proof. intros Hrow. row_after_write Hrow. Qed.

Lemma row_withBroadPhaseId c i r nodeId :
  row c i = Some r →
  row (withBroadPhaseId i nodeId c) i = Some (rowWithBroadPhaseId nodeId r).
Proof. intros Hrow. row_after_write Hrow. Qed.

Lemma row_withCollisionCategoryBits_ne c i j bits :
  i ≠ j → row (withCollisionCategoryBits i bits c) j = row c j.
Proof. intros Hne. row_elsewhere Hne. Qed.

Lemma row_withCollideWithMaskBits_ne c i j bits :
  i ≠ j → row (withCollideWithMaskBits i bits c) j = row c j.
Proof. intros Hne. row_elsewhere Hne. Qed.

Lemma row_withBroadPhaseId_ne c i j nodeId :
  i ≠ j → row (withBroadPhaseId i nodeId c) j = row c j.
Proof. intros Hne. row_elsewhere Hne. Qed.

(** ** The queries and setters of [ProxyShape] *)

Section Queries.
Variables (w : World) (this : ProxyShape) (i : N) (r : ProxyShapeRow).
Hypothesis Hindex :
  mMapEntityToComponentIndex (mProxyShapesComponents w) !! mEntity this
  = Some i.
Hypothesis Hrow : row (mProxyShapesComponents w) i = Some r.

Lemma getLocalToWorldTransform_run :
  ProxyShape.getLocalToWorldTransform this w =
  Some (localToWorldOf w this r, w, []).
Proof using Hindex Hrow.
  unfold ProxyShape.getLocalToWorldTransform.
  erewrite bind_silent; [|reflexivity].
  erewrite bind_silent; [|reflexivity].
  by rewrite (bind_silent _ _ _ _
                (getLocalToBodyTransform_run _ _ _ _ Hindex Hrow)).
Qed.

Lemma getWorldAABB_run :
  ProxyShape.getWorldAABB this w =
  Some (CollisionShape_computeAABB (rowCollisionShape r)
                                   (localToWorldOf w this r),
        w,
        [Call_computeAABB (rowCollisionShape r) (localToWorldOf w this r)]).
Proof using Hindex Hrow.
  unfold ProxyShape.getWorldAABB.
  rewrite (bind_silent _ _ _ _ (getCollisionShape_run _ _ _ _ Hindex Hrow)).
  by rewrite (bind_silent _ _ _ _ getLocalToWorldTransform_run).
Qed.

Lemma testPointInside_run worldPoint :
  ProxyShape.testPointInside this worldPoint w =
  Some (CollisionShape_testPointInside (rowCollisionShape r)
          (Transform_mulVector
             (Transform_getInverse (localToWorldOf w this r)) worldPoint)
          this,
        w, []).
Proof using Hindex Hrow.
  unfold ProxyShape.testPointInside.
  erewrite bind_silent; [|reflexivity].
  erewrite bind_silent; [|reflexivity].
  rewrite (bind_silent _ _ _ _
             (getLocalToBodyTransform_run _ _ _ _ Hindex Hrow)).
  by rewrite (bind_silent _ _ _ _ (getCollisionShape_run _ _ _ _ Hindex Hrow)).
Qed.

Lemma setCollisionCategoryBits_run bits :
  ProxyShape.setCollisionCategoryBits this bits w =
  Some (tt,
        set_mProxyShapesComponents
          (withCollisionCategoryBits i bits (mProxyShapesComponents w)) w,
        []).
Proof using Hindex Hrow.
  pose proof (row_Some _ _ _ Hrow) as (_ & _ & _ & Hid & Hcat & _).
  unfold ProxyShape.setCollisionCategoryBits.
  erewrite bind_quiet.
  2:{ unfold ProxyShapeComponents.setCollisionCategoryBits.
      rewrite (bind_silent _ _ _ _ (componentIndex_run _ _ _ Hindex)).
      by eapply write_run. }
  erewrite bind_silent;
    [|by apply getBroadPhaseId_lookup with (i := i)
                                           (nodeId := rowBroadPhaseId r)].
  done.
Qed.

Lemma setCollideWithMaskBits_run bits :
  ProxyShape.setCollideWithMaskBits this bits w =
  Some (tt,
        set_mProxyShapesComponents
          (withCollideWithMaskBits i bits (mProxyShapesComponents w)) w,
        []).
Proof using Hindex Hrow.
  pose proof (row_Some _ _ _ Hrow) as (_ & _ & _ & Hid & _ & Hmask).
  unfold ProxyShape.setCollideWithMaskBits.
  erewrite bind_quiet.
  2:{ unfold ProxyShapeComponents.setCollideWithMaskBits.
      rewrite (bind_silent _ _ _ _ (componentIndex_run _ _ _ Hindex)).
      by eapply write_run. }
  erewrite bind_silent;
    [|by apply getBroadPhaseId_lookup with (i := i)
                                           (nodeId := rowBroadPhaseId r)].
  done.
Qed.

End Queries.

Lemma setLocalToBodyTransform_run w this i r transform :
  let c := mProxyShapesComponents w in
  let woken := storedAndWoken i transform (mBody this) w in
  registeredAt c (mEntity this) i → row c i = Some r →
  ProxyShape.setLocalToBodyTransform this transform w =
  match BroadPhaseSystem.updateProxyShape (mEntity this) woken with
  | Some (_, w', calls) => Some (tt, w', calls)
  | None => None
  end.
Proof.
  intros c woken (Hindex & _) Hrow.
  pose proof (row_Some _ _ _ Hrow) as (_ & _ & Hlocal & Hid & _).
  unfold ProxyShape.setLocalToBodyTransform,
    CollisionDetection.updateProxyShape.
  erewrite bind_quiet.
  2:{ unfold ProxyShapeComponents.setLocalToBodyTransform.
      rewrite (bind_silent _ _ _ _ (componentIndex_run _ _ _ Hindex)).
      by eapply write_run. }
  rewrite (bind_quiet _ _ _ tt woken) by reflexivity.
  rewrite bind_run.
  destruct (BroadPhaseSystem.updateProxyShape (mEntity this) woken)
    as [[[[] w'] calls]|] eqn:Hupdate; [|done].
  assert (broadPhaseUpdateOf woken w') as (_ & Hc & _).
  { unfold BroadPhaseSystem.updateProxyShape in Hupdate.
    apply bind_Some in Hupdate as (j & w1 & c1 & c2 & Hj & Hupdate & _).
    unfold ProxyShapeComponents.componentIndex in Hj.
    destruct (_ !! _); [|done]. injection Hj as <- <- <-.
    by apply updateProxyShapesComponents_keeps in Hupdate as [? _]. }
  erewrite bind_silent.
  2:{ apply getBroadPhaseId_lookup with (i := i) (nodeId := rowBroadPhaseId r);
        rewrite Hc; [exact Hindex | exact Hid]. }
  unfold_M. by rewrite app_nil_r.
Qed.

Lemma getCollideWithMaskBits_run w e i r :
  mMapEntityToComponentIndex (mProxyShapesComponents w) !! e = Some i →
  row (mProxyShapesComponents w) i = Some r →
  ProxyShapeComponents.getCollideWithMaskBits e w =
  Some (rowCollideWithMaskBits r, w, []).
Proof.
  intros Hindex Hrow. unfold ProxyShapeComponents.getCollideWithMaskBits.
  rewrite (bind_silent _ _ _ _ (componentIndex_run _ _ _ Hindex)).
  apply read_run, (row_Some _ _ _ Hrow).
Qed.

(** X12: for a proxy shape registered at an enabled row with a node in the
    tree, whose row names the entity of its body, the AABB that
    [updateProxyShape] hands to the tree's [updateObject] is the one that
    [getWorldAABB] returns for the shape, computed under the same
    transform. *)
Theorem updateProxyShape_feeds_world_aabb
    (w : World) (this : ProxyShape) (i : N) (r : ProxyShapeRow) :
  let c := mProxyShapesComponents w in
  registeredAt c (mEntity this) i → (i < nbEnabledComponents c)%N →
  row c i = Some r → (0 ≤ rowBroadPhaseId r)%Z →
  rowBodyEntity r = mBodyEntity (bodies w (mBody this)) →
  ∃ (aabb : AABB) (w' : World),
    ProxyShape.getWorldAABB this w =
      Some (aabb, w,
            [Call_computeAABB (rowCollisionShape r) (localToWorldOf w this r)])
    ∧ BroadPhaseSystem.updateProxyShape (mEntity this) w =
      Some (tt, w',
            [Call_computeAABB (rowCollisionShape r) (localToWorldOf w this r);
             Call_updateObject (rowBroadPhaseId r) aabb Vector3_zero]).
Proof.
  intros c Hreg Hi Hrow Hge Hbody. pose proof Hreg as (Hindex & _).
  eexists _, _. split; [by apply getWorldAABB_run with (i := i)|].
  rewrite (updateProxyShape_on_enabled w _ i r Hreg Hi Hrow).
  destruct (Z.eqb_spec (rowBroadPhaseId r) (-1)); [lia|].
  destruct (Z.leb_spec 0 (rowBroadPhaseId r)); [|lia].
  unfold rowWorldAABB, rowWorldTransform, localToWorldOf.
  by rewrite Hbody.
Qed.

(** X13: after [setLocalToBodyTransform] on a registered proxy shape, the
    queries of the shape use the new transform: [getLocalToBodyTransform]
    returns it, [getLocalToWorldTransform] returns (body transform * new
    transform), [getWorldAABB] the AABB of the collision shape under that
    product, and [testPointInside] tests the point mapped by its inverse. *)
Theorem setLocalToBodyTransform_then_queries
    (w : World) (this : ProxyShape) (i : N) (r : ProxyShapeRow)
    (transform : Transform) (worldPoint : Vector3) :
  let c := mProxyShapesComponents w in
  let localToWorld :=
    Transform_mul
      (mTransformComponents w (mBodyEntity (bodies w (mBody this))))
      transform in
  registeredAt c (mEntity this) i → row c i = Some r →
  (-1 ≤ rowBroadPhaseId r)%Z →
  ∃ (w' : World) (calls : list Call),
    ProxyShape.setLocalToBodyTransform this transform w = Some (tt, w', calls)
    ∧ ProxyShape.getLocalToBodyTransform this w' = Some (transform, w', [])
    ∧ ProxyShape.getLocalToWorldTransform this w' = Some (localToWorld, w', [])
    ∧ ProxyShape.getWorldAABB this w' =
      Some (CollisionShape_computeAABB (rowCollisionShape r) localToWorld, w',
            [Call_computeAABB (rowCollisionShape r) localToWorld])
    ∧ ProxyShape.testPointInside this worldPoint w' =
      Some (CollisionShape_testPointInside (rowCollisionShape r)
              (Transform_mulVector (Transform_getInverse localToWorld)
                                   worldPoint) this,
            w', []).
Proof.
  intros c localToWorld Hreg Hrow Hge. pose proof Hreg as (Hindex & _).
  set (woken := storedAndWoken i transform (mBody this) w).
  pose proof (row_withLocalToBodyTransform c i r transform Hrow) as Hrow'.
  destruct (updateProxyShape_returns woken (mEntity this) i
              (rowWithLocalToBodyTransform transform r))
    as (b' & calls & Hupdate); [exact Hreg | exact Hrow' | exact Hge |].
  exists (set_mBroadPhaseSystem b' woken), calls.
  assert (localToWorldOf (set_mBroadPhaseSystem b' woken) this
            (rowWithLocalToBodyTransform transform r) = localToWorld) as HT.
  { unfold localToWorldOf, localToWorld. simpl. by rewrite decide_True. }
  split; [|split; [|split; [|split]]].
  - rewrite (setLocalToBodyTransform_run w this i r transform Hreg Hrow).
    fold woken. by rewrite Hupdate.
  - by apply getLocalToBodyTransform_run with (i := i)
         (r := rowWithLocalToBodyTransform transform r).
  - rewrite <- HT. by apply getLocalToWorldTransform_run with (i := i).
  - rewrite <- HT.
    by apply (getWorldAABB_run _ this i
                (rowWithLocalToBodyTransform transform r)).
  - rewrite <- HT.
    by apply (testPointInside_run _ this i
                (rowWithLocalToBodyTransform transform r)).
Qed.

(** X14: for a proxy shape registered at an enabled row with a node in the
    tree, [setLocalToBodyTransform] hands to the tree's [updateObject] the
    AABB of the collision shape under (transform of the row's body * the new
    transform) with a zero displacement; the tree is the one [updateObject]
    returns, the node id joins the moved shapes exactly when [updateObject]
    reports a re-insertion, and the body is awake afterwards. *)
Theorem setLocalToBodyTransform_updates_tree
    (w : World) (this : ProxyShape) (i : N) (r : ProxyShapeRow)
    (transform : Transform) :
  let c := mProxyShapesComponents w in
  let b := mBroadPhaseSystem w in
  let worldTransform :=
    Transform_mul (mTransformComponents w (rowBodyEntity r)) transform in
  let aabb := CollisionShape_computeAABB (rowCollisionShape r) worldTransform in
  let result :=
    updateObject (mDynamicAABBTree b) (rowBroadPhaseId r) aabb Vector3_zero in
  registeredAt c (mEntity this) i → (i < nbEnabledComponents c)%N →
  row c i = Some r → (0 ≤ rowBroadPhaseId r)%Z →
  ∃ w' : World,
    ProxyShape.setLocalToBodyTransform this transform w =
      Some (tt, w',
            [Call_computeAABB (rowCollisionShape r) worldTransform;
             Call_updateObject (rowBroadPhaseId r) aabb Vector3_zero])
    ∧ mDynamicAABBTree (mBroadPhaseSystem w') = result.2
    ∧ mMovedShapes (mBroadPhaseSystem w') =
      (if result.1 then mMovedShapes b ++ [rowBroadPhaseId r]
       else mMovedShapes b)
    ∧ mIsSleeping (bodies w' (mBody this)) = false.
Proof.
  intros c b worldTransform aabb result Hreg Hi Hrow Hge.
  set (woken := storedAndWoken i transform (mBody this) w).
  pose proof (row_withLocalToBodyTransform c i r transform Hrow) as Hrow'.
  exists (rowUpdated woken (rowWithLocalToBodyTransform transform r)).
  split; [|split; [done|split; [done|]]].
  - rewrite (setLocalToBodyTransform_run w this i r transform Hreg Hrow).
    fold woken.
    rewrite (updateProxyShape_on_enabled woken (mEntity this) i
               (rowWithLocalToBodyTransform transform r) Hreg Hi Hrow').
    simpl. destruct (Z.eqb_spec (rowBroadPhaseId r) (-1)); [lia|].
    destruct (Z.leb_spec 0 (rowBroadPhaseId r)); [done | lia].
  - simpl. by rewrite decide_True.
Qed.

(** X15: a change of the category bits takes effect on the next raycast
    without any update of the tree: after [setCollisionCategoryBits] on the
    proxy shape of a leaf, [raycastBroadPhaseShape] on that leaf calls
    [raycastAgainstShape] exactly when the raycast mask and the new bits have
    a bit in common, and returns -1 otherwise. *)
Theorem setCollisionCategoryBits_then_raycast
    (w : World) (this : BroadPhaseRaycastCallback.t) (nodeId : Z) (ray : Ray)
    (i : N) (r : ProxyShapeRow) (bits : N) :
  let c := mProxyShapesComponents w in
  let proxyShape :=
    getNodeDataPointer (mDynamicAABBTree (mBroadPhaseSystem w)) nodeId in
  let mask := BroadPhaseRaycastCallback.mRaycastWithCategoryMaskBits this in
  let test := BroadPhaseRaycastCallback.mRaycastTest this in
  let w' := set_mProxyShapesComponents (withCollisionCategoryBits i bits c) w in
  mMapEntityToComponentIndex c !! mEntity proxyShape = Some i →
  row c i = Some r →
  (ProxyShape.setCollisionCategoryBits proxyShape bits;;
   BroadPhaseRaycastCallback.raycastBroadPhaseShape this nodeId ray) w =
  if (N.land mask bits =? 0)%N
  then Some (((-1)%float, test), w', [])
  else Some (raycastAgainstShape test proxyShape ray, w',
             [Call_raycastAgainstShape proxyShape ray]).
Proof.
  intros c proxyShape mask test w' Hindex Hrow.
  rewrite (bind_quiet _ _ _ _ _
             (setCollisionCategoryBits_run w proxyShape i r Hindex Hrow bits)).
  fold c w'.
  unfold BroadPhaseRaycastCallback.raycastBroadPhaseShape.
  erewrite bind_silent; [|reflexivity].
  change (getNodeDataPointer (mDynamicAABBTree (mBroadPhaseSystem w')) nodeId)
    with proxyShape.
  unfold ProxyShape.getCollisionCategoryBits.
  erewrite bind_silent.
  2:{ apply getCollisionCategoryBits_run with (i := i);
        [exact Hindex | by apply row_withCollisionCategoryBits]. }
  simpl. fold mask test. by destruct (N.land mask bits =? 0)%N.
Qed.

(** X16: after [setCollisionCategoryBits] on a registered proxy shape,
    [getCollisionCategoryBits] of that shape returns the new bits, its mask
    bits and its broad-phase id are as before, and the category bits of a
    shape registered at another row are as before. *)
Theorem setCollisionCategoryBits_roundtrip
    (w : World) (this : ProxyShape) (i : N) (r : ProxyShapeRow) (bits : N) :
  let c := mProxyShapesComponents w in
  mMapEntityToComponentIndex c !! mEntity this = Some i →
  row c i = Some r →
  ∃ w' : World,
    ProxyShape.setCollisionCategoryBits this bits w = Some (tt, w', [])
    ∧ ProxyShape.getCollisionCategoryBits this w' = Some (bits, w', [])
    ∧ ProxyShape.getCollideWithMaskBits this w' =
      Some (rowCollideWithMaskBits r, w', [])
    ∧ ProxyShape.getBroadPhaseId this w' = Some (rowBroadPhaseId r, w', [])
    ∧ ∀ (other : ProxyShape) (j : N) (r' : ProxyShapeRow),
        mMapEntityToComponentIndex c !! mEntity other = Some j → j ≠ i →
        row c j = Some r' →
        ProxyShape.getCollisionCategoryBits other w' =
        Some (rowCollisionCategoryBits r', w', []).
Proof.
  intros c Hindex Hrow.
  pose proof (row_withCollisionCategoryBits c i r bits Hrow) as Hrow'.
  eexists. split; [by apply setCollisionCategoryBits_run with (r := r)|].
  split; [|split; [|split]].
  - by apply getCollisionCategoryBits_run with (i := i)
         (r := rowWithCollisionCategoryBits bits r).
  - by apply getCollideWithMaskBits_run with (i := i)
         (r := rowWithCollisionCategoryBits bits r).
  - by apply getBroadPhaseId_run with (i := i)
         (r := rowWithCollisionCategoryBits bits r).
  - intros other j r' Hj Hne Hrowj.
    apply getCollisionCategoryBits_run with (i := j); [exact Hj|].
    simpl. by rewrite row_withCollisionCategoryBits_ne.
Qed.

(** X17: after [setCollideWithMaskBits] on a registered proxy shape,
    [getCollideWithMaskBits] of that shape returns the new bits, its category
    bits and its broad-phase id are as before, and the mask bits of a shape
    registered at another row are as before. *)
Theorem setCollideWithMaskBits_roundtrip
    (w : World) (this : ProxyShape) (i : N) (r : ProxyShapeRow) (bits : N) :
  let c := mProxyShapesComponents w in
  mMapEntityToComponentIndex c !! mEntity this = Some i →
  row c i = Some r →
  ∃ w' : World,
    ProxyShape.setCollideWithMaskBits this bits w = Some (tt, w', [])
    ∧ ProxyShape.getCollideWithMaskBits this w' = Some (bits, w', [])
    ∧ ProxyShape.getCollisionCategoryBits this w' =
      Some (rowCollisionCategoryBits r, w', [])
    ∧ ProxyShape.getBroadPhaseId this w' = Some (rowBroadPhaseId r, w', [])
    ∧ ∀ (other : ProxyShape) (j : N) (r' : ProxyShapeRow),
        mMapEntityToComponentIndex c !! mEntity other = Some j → j ≠ i →
        row c j = Some r' →
        ProxyShape.getCollideWithMaskBits other w' =
        Some (rowCollideWithMaskBits r', w', []).
Proof.
  intros c Hindex Hrow.
  pose proof (row_withCollideWithMaskBits c i r bits Hrow) as Hrow'.
  eexists. split; [by apply setCollideWithMaskBits_run with (r := r)|].
  split; [|split; [|split]].
  - by apply getCollideWithMaskBits_run with (i := i)
         (r := rowWithCollideWithMaskBits bits r).
  - by apply getCollisionCategoryBits_run with (i := i)
         (r := rowWithCollideWithMaskBits bits r).
  - by apply getBroadPhaseId_run with (i := i)
         (r := rowWithCollideWithMaskBits bits r).
  - intros other j r' Hj Hne Hrowj.
    apply getCollideWithMaskBits_run with (i := j); [exact Hj|].
    simpl. by rewrite row_withCollideWithMaskBits_ne.
Qed.

(** ** Adding and removing proxy shapes *)

Lemma setBroadPhaseId_run w e i r nodeId :
  mMapEntityToComponentIndex (mProxyShapesComponents w) !! e = Some i →
  row (mProxyShapesComponents w) i = Some r →
  ProxyShapeComponents.setBroadPhaseId e nodeId w =
  Some (tt,
        set_mProxyShapesComponents
          (withBroadPhaseId i nodeId (mProxyShapesComponents w)) w,
        []).
Proof.
  intros Hindex Hrow.
  pose proof (row_Some _ _ _ Hrow) as (_ & _ & _ & Hid & _).
  unfold ProxyShapeComponents.setBroadPhaseId.
  rewrite (bind_silent _ _ _ _ (componentIndex_run _ _ _ Hindex)).
  by eapply write_run.
Qed.

Lemma addProxyCollisionShape_run w proxyShape aabb i r :
  let c := mProxyShapesComponents w in
  let b := mBroadPhaseSystem w in
  let added := addObject (mDynamicAABBTree b) aabb proxyShape in
  mMapEntityToComponentIndex c !! mEntity proxyShape = Some i →
  row c i = Some r → rowBroadPhaseId r = (-1)%Z →
  BroadPhaseSystem.addProxyCollisionShape proxyShape aabb w =
  Some (tt,
        set_mBroadPhaseSystem
          {| mDynamicAABBTree := added.2;
             mMovedShapes := mMovedShapes b ++ [added.1];
             mPotentialPairs := mPotentialPairs b |}
          (set_mProxyShapesComponents (withBroadPhaseId i added.1 c) w),
        []).
Proof.
  intros c b added Hindex Hrow Hid.
  unfold BroadPhaseSystem.addProxyCollisionShape,
    BroadPhaseSystem.ProxyShape_getBroadPhaseId.
  rewrite (bind_silent _ _ _ _ (getBroadPhaseId_run _ _ _ _ Hindex Hrow)).
  rewrite Hid. change (-1 =? -1)%Z with true.
  erewrite bind_silent; [|reflexivity].
  erewrite bind_silent; [|reflexivity].
  fold b added. destruct added as [nodeId tree'] eqn:Hadded.
  erewrite bind_quiet; [|reflexivity].
  erewrite bind_quiet; [|by eapply setBroadPhaseId_run].
  erewrite bind_silent.
  2:{ apply getBroadPhaseId_run with (i := i)
        (r := rowWithBroadPhaseId nodeId r); [exact Hindex|].
      by apply (row_withBroadPhaseId c). }
  done.
Qed.

(** X18: [addProxyCollisionShape] on a registered proxy shape that is not in
    the tree inserts it with [addObject], stores the node id the tree
    returned as the shape's broad-phase id, and appends that id to the moved
    shapes; the broad-phase ids of the shapes registered at other rows, the
    bodies and the potential-pairs buffer are as before. *)
Theorem addProxyCollisionShape_registers_node
    (w : World) (proxyShape : ProxyShape) (aabb : AABB)
    (i : N) (r : ProxyShapeRow) :
  let c := mProxyShapesComponents w in
  let b := mBroadPhaseSystem w in
  let added := addObject (mDynamicAABBTree b) aabb proxyShape in
  mMapEntityToComponentIndex c !! mEntity proxyShape = Some i →
  row c i = Some r → rowBroadPhaseId r = (-1)%Z →
  ∃ w' : World,
    BroadPhaseSystem.addProxyCollisionShape proxyShape aabb w =
      Some (tt, w', [])
    ∧ ProxyShape.getBroadPhaseId proxyShape w' = Some (added.1, w', [])
    ∧ mDynamicAABBTree (mBroadPhaseSystem w') = added.2
    ∧ mMovedShapes (mBroadPhaseSystem w') = mMovedShapes b ++ [added.1]
    ∧ mPotentialPairs (mBroadPhaseSystem w') = mPotentialPairs b
    ∧ bodies w' = bodies w
    ∧ ∀ (other : ProxyShape) (j : N) (r' : ProxyShapeRow),
        mMapEntityToComponentIndex c !! mEntity other = Some j → j ≠ i →
        row c j = Some r' →
        ProxyShape.getBroadPhaseId other w' = Some (rowBroadPhaseId r', w', []).
Proof.
  intros c b added Hindex Hrow Hid.
  eexists. split; [by apply addProxyCollisionShape_run with (r := r)|].
  split; [|repeat split].
  - apply getBroadPhaseId_run with (i := i)
      (r := rowWithBroadPhaseId added.1 r); [exact Hindex|].
    by apply (row_withBroadPhaseId c).
  - intros other j r' Hj Hne Hrowj.
    apply getBroadPhaseId_run with (i := j); [exact Hj|].
    simpl. by rewrite row_withBroadPhaseId_ne.
Qed.

(** X19: the two assertions on the broad-phase id: for a registered proxy
    shape, [addProxyCollisionShape] does not return when the shape already has
    a node id, and [removeProxyCollisionShape] does not return when it has
    none. *)
Theorem add_remove_proxy_shape_guards
    (w : World) (proxyShape : ProxyShape) (aabb : AABB)
    (i : N) (r : ProxyShapeRow) :
  let c := mProxyShapesComponents w in
  mMapEntityToComponentIndex c !! mEntity proxyShape = Some i →
  row c i = Some r →
  (rowBroadPhaseId r ≠ (-1)%Z →
   BroadPhaseSystem.addProxyCollisionShape proxyShape aabb w = None)
  ∧ (rowBroadPhaseId r = (-1)%Z →
     BroadPhaseSystem.removeProxyCollisionShape proxyShape w = None).
Proof.
  intros c Hindex Hrow. split; intros Hid.
  - unfold BroadPhaseSystem.addProxyCollisionShape,
      BroadPhaseSystem.ProxyShape_getBroadPhaseId.
    rewrite (bind_silent _ _ _ _ (getBroadPhaseId_run _ _ _ _ Hindex Hrow)).
    apply Z.eqb_neq in Hid. by rewrite Hid.
  - unfold BroadPhaseSystem.removeProxyCollisionShape,
      BroadPhaseSystem.ProxyShape_getBroadPhaseId.
    rewrite (bind_silent _ _ _ _ (getBroadPhaseId_run _ _ _ _ Hindex Hrow)).
    by rewrite Hid.
Qed.

Lemma removeProxyCollisionShape_run w proxyShape i r :
  let c := mProxyShapesComponents w in
  let b := mBroadPhaseSystem w in
  mMapEntityToComponentIndex c !! mEntity proxyShape = Some i →
  row c i = Some r → rowBroadPhaseId r ≠ (-1)%Z →
  BroadPhaseSystem.removeProxyCollisionShape proxyShape w =
  Some (tt,
        set_mBroadPhaseSystem
          {| mDynamicAABBTree :=
               removeObject (mDynamicAABBTree b) (rowBroadPhaseId r);
             mMovedShapes :=
               filter (λ m, m ≠ rowBroadPhaseId r) (mMovedShapes b);
             mPotentialPairs := mPotentialPairs b |}
          (set_mProxyShapesComponents (withBroadPhaseId i (-1) c) w),
        []).
Proof.
  intros c b Hindex Hrow Hid.
  unfold BroadPhaseSystem.removeProxyCollisionShape,
    BroadPhaseSystem.ProxyShape_getBroadPhaseId.
  rewrite (bind_silent _ _ _ _ (getBroadPhaseId_run _ _ _ _ Hindex Hrow)).
  apply Z.eqb_neq in Hid. rewrite Hid. cbn [negb].
  erewrite bind_silent; [|reflexivity].
  rewrite (bind_silent _ _ _ _ (getBroadPhaseId_run _ _ _ _ Hindex Hrow)).
  erewrite bind_quiet; [|by eapply setBroadPhaseId_run].
  erewrite bind_silent; [|reflexivity].
  erewrite bind_quiet; [|reflexivity].
  done.
Qed.

(** X20: [addProxyCollisionShape] followed by [removeProxyCollisionShape] on
    a registered proxy shape that was not in the tree returns (the tree
    having given a node id other than -1) with the component columns exactly
    as before the two calls, the tree being the one [removeObject] returns for
    the node that [addObject] created, and that node id absent from the moved
    shapes. *)
Theorem add_then_remove_proxy_shape
    (w : World) (proxyShape : ProxyShape) (aabb : AABB)
    (i : N) (r : ProxyShapeRow) :
  let c := mProxyShapesComponents w in
  let b := mBroadPhaseSystem w in
  let added := addObject (mDynamicAABBTree b) aabb proxyShape in
  mMapEntityToComponentIndex c !! mEntity proxyShape = Some i →
  row c i = Some r → rowBroadPhaseId r = (-1)%Z → added.1 ≠ (-1)%Z →
  ∃ w' : World,
    (BroadPhaseSystem.addProxyCollisionShape proxyShape aabb;;
     BroadPhaseSystem.removeProxyCollisionShape proxyShape) w =
      Some (tt, w', [])
    ∧ mProxyShapesComponents w' = c
    ∧ bodies w' = bodies w
    ∧ mDynamicAABBTree (mBroadPhaseSystem w') = removeObject added.2 added.1
    ∧ mMovedShapes (mBroadPhaseSystem w') =
      filter (λ m, m ≠ added.1) (mMovedShapes b)
    ∧ mPotentialPairs (mBroadPhaseSystem w') = mPotentialPairs b.
Proof.
  intros c b added Hindex Hrow Hid Hnode.
  pose proof (row_Some _ _ _ Hrow) as (_ & _ & _ & Hids & _).
  rewrite (bind_quiet _ _ _ _ _
             (addProxyCollisionShape_run w proxyShape aabb i r
                Hindex Hrow Hid)).
  fold c b added.
  eexists. split.
  - apply removeProxyCollisionShape_run with (i := i)
      (r := rowWithBroadPhaseId added.1 r);
      [exact Hindex | by apply (row_withBroadPhaseId c) | exact Hnode].
  - simpl. repeat split.
    + unfold withBroadPhaseId. simpl.
      rewrite list_insert_insert_eq, list_insert_id by (by rewrite Hids, Hid).
      by destruct c.
    + rewrite filter_app, filter_cons_False by (by intros []).
      by rewrite filter_nil, app_nil_r.
Qed.

(** X21: a proxy shape added with [addProxyCollisionShape] is swept by the
    next [computeOverlappingPairs]: for every node [o], other than the new
    node, that the tree reports as overlapping the new node's fat AABB and
    whose proxy shape is on a body with another id, the pair of the two nodes
    is notified to the narrow phase. *)
Theorem addProxyCollisionShape_then_sweep
    (w : World) (proxyShape : ProxyShape) (aabb : AABB)
    (i : N) (r : ProxyShapeRow) :
  let c := mProxyShapesComponents w in
  let nodeId :=
    (addObject (mDynamicAABBTree (mBroadPhaseSystem w)) aabb proxyShape).1 in
  mMapEntityToComponentIndex c !! mEntity proxyShape = Some i →
  row c i = Some r → rowBroadPhaseId r = (-1)%Z → nodeId ≠ (-1)%Z →
  ∃ (w1 w2 : World) (calls : list Call),
    BroadPhaseSystem.addProxyCollisionShape proxyShape aabb w =
      Some (tt, w1, [])
    ∧ BroadPhaseSystem.computeOverlappingPairs w1 = Some (tt, w2, calls)
    ∧ ∀ o, o ∈ overlapping w1 nodeId → o ≠ nodeId →
        let p := BroadPhaseSystem.BroadPhasePair_ctor (Z.min nodeId o)
                                                      (Z.max nodeId o) in
        bodyIdOf w1 (shape1Of w1 p) ≠ bodyIdOf w1 (shape2Of w1 p) →
        notification w1 p ∈ calls.
Proof.
  intros c nodeId Hindex Hrow Hid Hnode.
  pose proof (addProxyCollisionShape_run w proxyShape aabb i r
                Hindex Hrow Hid) as Hadd.
  cbv zeta in Hadd.
  match type of Hadd with
  | _ = Some (_, ?w1, _) =>
      destruct (computeOverlappingPairs_spec w1)
        as (unique & Hrun & _ & Helem);
      exists w1
  end.
  eexists _, _. split; [exact Hadd|]. split; [exact Hrun|].
  intros o Ho Hne p Hdiff.
  apply list_elem_of_fmap_2, list_elem_of_filter. split.
  - unfold differentBodies. by rewrite negb_True, Is_true_true, N.eqb_eq.
  - apply Helem, sortedPotentialPairs_elem.
    exists nodeId, o. repeat split; try done.
    simpl. fold nodeId. rewrite elem_of_app, list_elem_of_singleton. by right.
Qed.

End FurtherResults.

(** * The further results on the lattice *)

Section FurtherLatticeRuns.
Import Lattice.

Lemma computeOverlappingPairs_nothing_moved_witness :
  let w := withBuffers [(-1)%Z; (-1)%Z]
             [BroadPhaseSystem.BroadPhasePair_ctor 0 1] world0 in
  Forall (λ m, m = (-1)%Z) (mMovedShapes (mBroadPhaseSystem w))
  ∧ BroadPhaseSystem.computeOverlappingPairs w =
    Some (tt, withBuffers [] [] w, []).
Proof.
  intros w.
  assert (Forall (λ m, m = (-1)%Z) (mMovedShapes (mBroadPhaseSystem w)))
    as Hmoved by (by repeat constructor).
  split; [exact Hmoved|].
  exact (computeOverlappingPairs_nothing_moved w Hmoved).
Defined.

Lemma computeOverlappingPairs_same_body_filter_witness :
  let w := set_bodies (λ _, body10) world0 in
  (∀ a b : Z,
     bodyIdOf w (getNodeDataPointer (mDynamicAABBTree (mBroadPhaseSystem w)) a)
     = bodyIdOf w
         (getNodeDataPointer (mDynamicAABBTree (mBroadPhaseSystem w)) b))
  ∧ callsOf (BroadPhaseSystem.computeOverlappingPairs w) = Some [].
Proof.
  intros w.
  assert (∀ a b : Z,
     bodyIdOf w (getNodeDataPointer (mDynamicAABBTree (mBroadPhaseSystem w)) a)
     = bodyIdOf w
         (getNodeDataPointer (mDynamicAABBTree (mBroadPhaseSystem w)) b))
    as Hsame by (intros a b; reflexivity).
  split; [exact Hsame|].
  exact (computeOverlappingPairs_same_body_filter w Hsame).
Defined.

Lemma computeOverlappingPairs_moved_order_irrelevant_witness :
  (∀ m : Z, m ∈ [1%Z; 0%Z] ↔ m ∈ [0%Z; 1%Z; 1%Z])
  ∧ callsOf (BroadPhaseSystem.computeOverlappingPairs
               (withBuffers [1%Z; 0%Z] [] world0)) =
    callsOf (BroadPhaseSystem.computeOverlappingPairs
               (withBuffers [0%Z; 1%Z; 1%Z]
                  [BroadPhaseSystem.BroadPhasePair_ctor 5 7] world0)).
Proof.
  assert (∀ m : Z, m ∈ [1%Z; 0%Z] ↔ m ∈ [0%Z; 1%Z; 1%Z]) as Hmoved.
  { intros m. rewrite !elem_of_cons, !elem_of_nil. tauto. }
  split; [exact Hmoved|].
  exact (computeOverlappingPairs_moved_order_irrelevant world0 _ _ _ _ Hmoved).
Defined.

Lemma computeOverlappingPairs_report_order_irrelevant_witness :
  let w2 := set_mBroadPhaseSystem
              (set_mDynamicAABBTree tree1 (mBroadPhaseSystem world0)) world0 in
  (∀ n, getNodeDataPointer tree1 n = getNodeDataPointer tree0 n)
  ∧ (∀ m o, m ∈ [1%Z] → o ∈ overlapping w2 m ↔ o ∈ overlapping world0 m)
  ∧ callsOf (BroadPhaseSystem.computeOverlappingPairs w2) =
    callsOf (BroadPhaseSystem.computeOverlappingPairs world0).
Proof.
  intros w2.
  assert (∀ n, getNodeDataPointer tree1 n = getNodeDataPointer tree0 n)
    as Hpayload.
  { intros n. simpl. unfold leafShape.
    destruct (Z.to_nat n) as [|[|[|k]]]; reflexivity. }
  assert (∀ m o, m ∈ [1%Z] → o ∈ overlapping w2 m ↔ o ∈ overlapping world0 m)
    as Hreport.
  { intros m o ->%list_elem_of_singleton. reflexivity. }
  split; [exact Hpayload|]. split; [exact Hreport|].
  exact (computeOverlappingPairs_report_order_irrelevant world0 tree1
           Hpayload Hreport).
Defined.

Lemma updateProxyShapesComponents_frame_witness :
  BroadPhaseSystem.updateProxyShapesComponents 0 2 world0 =
    Some (tt, world0, updateCalls0)
  ∧ broadPhaseUpdateOf world0 world0 ∧ Forall isUpdateCall updateCalls0.
Proof.
  split; [reflexivity|].
  exact (updateProxyShapesComponents_frame 0 2 world0 world0 updateCalls0
           eq_refl).
Defined.

Lemma updateProxyShapes_empty_store_aborts_witness :
  nbComponents (mProxyShapesComponents worldWithoutComponents) = 0%N
  ∧ BroadPhaseSystem.updateProxyShapes worldWithoutComponents = None.
Proof.
  split; [reflexivity|].
  exact (updateProxyShapes_empty_store_aborts worldWithoutComponents eq_refl).
Defined.

Lemma updateProxyShapes_visits_enabled_rows_witness :
  (0 < nbComponents components)%N
  ∧ (nbEnabledComponents components ≤ nbComponents components)%N
  ∧ (nbComponents components < 2 ^ 32)%N
  ∧ (∀ j, (j < nbEnabledComponents components)%N →
          ∃ r, row components j = Some r ∧ (-1 ≤ rowBroadPhaseId r)%Z)
  ∧ ∃ w', BroadPhaseSystem.updateProxyShapes world0 =
            Some (tt, w', updateCalls0)
          ∧ broadPhaseUpdateOf world0 w'.
Proof.
  assert (0 < nbComponents components)%N as H1 by (simpl; lia).
  assert (nbEnabledComponents components ≤ nbComponents components)%N as H2
    by (simpl; lia).
  assert (nbComponents components < 2 ^ 32)%N as H3 by (simpl; lia).
  assert (∀ j, (j < nbEnabledComponents components)%N →
               ∃ r, row components j = Some r ∧ (-1 ≤ rowBroadPhaseId r)%Z)
    as H4.
  { intros j Hj. simpl in Hj.
    assert (j = 0 ∨ j = 1)%N as [-> | ->] by lia.
    - exists row0. split; [reflexivity | simpl; lia].
    - exists row1. split; [reflexivity | simpl; lia]. }
  split; [exact H1|]. split; [exact H2|]. split; [exact H3|].
  split; [exact H4|].
  exact (updateProxyShapes_visits_enabled_rows world0 H1 H2 H3 H4).
Defined.

Lemma components4_registered e i :
  mMapEntityToComponentIndex components4 !! e = Some i →
  (i < 4)%N → registeredAt components4 e i.
Proof. intros He Hi. repeat split; simpl; [done | lia..]. Qed.

Lemma updateProxyShape_enabled_row_without_node_witness :
  registeredAt components4 4 3
  ∧ (3 < nbEnabledComponents components4)%N
  ∧ row components4 3 = Some row3
  ∧ rowBroadPhaseId row3 = (-1)%Z
  ∧ BroadPhaseSystem.updateProxyShape 4%N world4 = Some (tt, world4, []).
Proof.
  assert (registeredAt components4 4 3) as Hreg
    by (apply components4_registered; [reflexivity | lia]).
  assert (3 < nbEnabledComponents components4)%N as Hi by (simpl; lia).
  split; [exact Hreg|]. split; [exact Hi|]. split; [reflexivity|].
  split; [reflexivity|].
  exact (proj1 (updateProxyShape_enabled_row_without_node world4 4 3 row3
                  Hreg Hi eq_refl) eq_refl).
Defined.

Lemma updateProxyShape_feeds_world_aabb_witness :
  registeredAt components 1 0
  ∧ (0 < nbEnabledComponents components)%N
  ∧ row components 0 = Some row0
  ∧ (0 ≤ rowBroadPhaseId row0)%Z
  ∧ rowBodyEntity row0 = mBodyEntity (bodies world0 (mBody proxy1))
  ∧ ∃ (aabb : AABB) (w' : World),
      ProxyShape.getWorldAABB proxy1 world0 =
        Some (aabb, world0, [Call_computeAABB 1%Z (0, 0, 0)%Z])
      ∧ BroadPhaseSystem.updateProxyShape 1%N world0 =
        Some (tt, w',
              [Call_computeAABB 1%Z (0, 0, 0)%Z;
               Call_updateObject 0 aabb (0, 0, 0)%Z]).
Proof.
  assert (registeredAt components 1 0) as Hreg
    by (apply components_registered; [reflexivity | lia]).
  assert (0 < nbEnabledComponents components)%N as Hi by (simpl; lia).
  assert (0 ≤ rowBroadPhaseId row0)%Z as Hge by (simpl; lia).
  split; [exact Hreg|]. split; [exact Hi|]. split; [reflexivity|].
  split; [exact Hge|]. split; [reflexivity|].
  exact (updateProxyShape_feeds_world_aabb world0 proxy1 0 row0
           Hreg Hi eq_refl Hge eq_refl).
Defined.

Lemma setLocalToBodyTransform_then_queries_witness :
  registeredAt components 1 0
  ∧ row components 0 = Some row0
  ∧ (-1 ≤ rowBroadPhaseId row0)%Z
  ∧ ∃ (w' : World) (calls : list Call),
      ProxyShape.setLocalToBodyTransform proxy1 (5, 0, 0)%Z world0 =
        Some (tt, w', calls)
      ∧ ProxyShape.getLocalToBodyTransform proxy1 w' =
        Some ((5, 0, 0)%Z, w', [])
      ∧ ProxyShape.getLocalToWorldTransform proxy1 w' =
        Some ((5, 0, 0)%Z, w', [])
      ∧ ProxyShape.getWorldAABB proxy1 w' =
        Some (((4, -1, -1), (6, 1, 1))%Z, w',
              [Call_computeAABB 1%Z (5, 0, 0)%Z])
      ∧ ProxyShape.testPointInside proxy1 (5, 1, 0)%Z w' = Some (true, w', []).
Proof.
  assert (registeredAt components 1 0) as Hreg
    by (apply components_registered; [reflexivity | lia]).
  assert (-1 ≤ rowBroadPhaseId row0)%Z as Hge by (simpl; lia).
  split; [exact Hreg|]. split; [reflexivity|]. split; [exact Hge|].
  exact (setLocalToBodyTransform_then_queries world0 proxy1 0 row0
           (5, 0, 0)%Z (5, 1, 0)%Z Hreg eq_refl Hge).
Defined.

Lemma setLocalToBodyTransform_updates_tree_witness :
  registeredAt components 1 0
  ∧ (0 < nbEnabledComponents components)%N
  ∧ row components 0 = Some row0
  ∧ (0 ≤ rowBroadPhaseId row0)%Z
  ∧ ∃ w' : World,
      ProxyShape.setLocalToBodyTransform proxy1 (5, 0, 0)%Z world0 =
        Some (tt, w',
              [Call_computeAABB 1%Z (5, 0, 0)%Z;
               Call_updateObject 0 ((4, -1, -1), (6, 1, 1))%Z (0, 0, 0)%Z])
      ∧ mDynamicAABBTree (mBroadPhaseSystem w') =
        <[0%nat := (((3, -2, -2), (7, 2, 2))%Z, proxy1)]> tree0
      ∧ mMovedShapes (mBroadPhaseSystem w') = [1%Z; 0%Z]
      ∧ mIsSleeping (bodies w' (mBody proxy1)) = false.
Proof.
  assert (registeredAt components 1 0) as Hreg
    by (apply components_registered; [reflexivity | lia]).
  assert (0 < nbEnabledComponents components)%N as Hi by (simpl; lia).
  assert (0 ≤ rowBroadPhaseId row0)%Z as Hge by (simpl; lia).
  split; [exact Hreg|]. split; [exact Hi|]. split; [reflexivity|].
  split; [exact Hge|].
  exact (setLocalToBodyTransform_updates_tree world0 proxy1 0 row0
           (5, 0, 0)%Z Hreg Hi eq_refl Hge).
Defined.

Lemma setCollisionCategoryBits_then_raycast_witness :
  mMapEntityToComponentIndex components !! mEntity proxy1 = Some 0%N
  ∧ row components 0 = Some row0
  ∧ (ProxyShape.setCollisionCategoryBits proxy1 2;;
     BroadPhaseRaycastCallback.raycastBroadPhaseShape callback0 0 ray0) world0
    = Some ((0.5%float, [proxy1]),
            set_mProxyShapesComponents
              (withCollisionCategoryBits 0 2 components) world0,
            [Call_raycastAgainstShape proxy1 ray0]).
Proof.
  split; [reflexivity|]. split; [reflexivity|].
  exact (setCollisionCategoryBits_then_raycast world0 callback0 0 ray0 0 row0
           2 eq_refl eq_refl).
Defined.

Lemma setCollisionCategoryBits_roundtrip_witness :
  mMapEntityToComponentIndex components !! mEntity proxy1 = Some 0%N
  ∧ row components 0 = Some row0
  ∧ ∃ w' : World,
      ProxyShape.setCollisionCategoryBits proxy1 4 world0 = Some (tt, w', [])
      ∧ ProxyShape.getCollisionCategoryBits proxy1 w' = Some (4%N, w', [])
      ∧ ProxyShape.getCollisionCategoryBits proxy3 w' = Some (2%N, w', []).
Proof.
  split; [reflexivity|]. split; [reflexivity|].
  destruct (setCollisionCategoryBits_roundtrip world0 proxy1 0 row0 4
              eq_refl eq_refl)
    as (w' & Hset & Hget & _ & _ & Hother).
  exists w'. split; [exact Hset|]. split; [exact Hget|].
  refine (Hother proxy3 1%N row1 eq_refl _ eq_refl). lia.
Defined.

Lemma setCollideWithMaskBits_roundtrip_witness :
  mMapEntityToComponentIndex components !! mEntity proxy1 = Some 0%N
  ∧ row components 0 = Some row0
  ∧ ∃ w' : World,
      ProxyShape.setCollideWithMaskBits proxy1 4 world0 = Some (tt, w', [])
      ∧ ProxyShape.getCollideWithMaskBits proxy1 w' = Some (4%N, w', [])
      ∧ ProxyShape.getCollideWithMaskBits proxy3 w' = Some (65535%N, w', []).
Proof.
  split; [reflexivity|]. split; [reflexivity|].
  destruct (setCollideWithMaskBits_roundtrip world0 proxy1 0 row0 4
              eq_refl eq_refl)
    as (w' & Hset & Hget & _ & _ & Hother).
  exists w'. split; [exact Hset|]. split; [exact Hget|].
  refine (Hother proxy3 1%N row1 eq_refl _ eq_refl). lia.
Defined.

Lemma addProxyCollisionShape_registers_node_witness :
  mMapEntityToComponentIndex components4 !! mEntity proxy4 = Some 3%N
  ∧ row components4 3 = Some row3
  ∧ rowBroadPhaseId row3 = (-1)%Z
  ∧ ∃ w' : World,
      BroadPhaseSystem.addProxyCollisionShape proxy4
        ((0, -1, 0), (2, 1, 2))%Z world4 = Some (tt, w', [])
      ∧ ProxyShape.getBroadPhaseId proxy4 w' = Some (3%Z, w', [])
      ∧ mMovedShapes (mBroadPhaseSystem w') = [1%Z; 3%Z]
      ∧ ProxyShape.getBroadPhaseId proxy1 w' = Some (0%Z, w', []).
Proof.
  do 3 (split; [reflexivity|]).
  destruct (addProxyCollisionShape_registers_node world4 proxy4
              ((0, -1, 0), (2, 1, 2))%Z 3 row3 eq_refl eq_refl eq_refl)
    as (w' & Hadd & Hget & _ & Hmoved & _ & _ & Hother).
  exists w'. split; [exact Hadd|]. split; [exact Hget|].
  split; [exact Hmoved|].
  refine (Hother proxy1 0%N row0 eq_refl _ eq_refl). lia.
Defined.

Lemma add_remove_proxy_shape_guards_witness :
  mMapEntityToComponentIndex components !! mEntity proxy1 = Some 0%N
  ∧ row components 0 = Some row0
  ∧ rowBroadPhaseId row0 ≠ (-1)%Z
  ∧ BroadPhaseSystem.addProxyCollisionShape proxy1
      ((0, -1, 0), (2, 1, 2))%Z world0 = None.
Proof.
  assert (rowBroadPhaseId row0 ≠ (-1)%Z) as Hid by (simpl; lia).
  split; [reflexivity|]. split; [reflexivity|]. split; [exact Hid|].
  exact (proj1 (add_remove_proxy_shape_guards world0 proxy1
                  ((0, -1, 0), (2, 1, 2))%Z 0 row0 eq_refl eq_refl) Hid).
Defined.

Lemma add_then_remove_proxy_shape_witness :
  mMapEntityToComponentIndex components4 !! mEntity proxy4 = Some 3%N
  ∧ row components4 3 = Some row3
  ∧ rowBroadPhaseId row3 = (-1)%Z
  ∧ (addObject tree0 ((0, -1, 0), (2, 1, 2))%Z proxy4).1 ≠ (-1)%Z
  ∧ ∃ w' : World,
      (BroadPhaseSystem.addProxyCollisionShape proxy4
         ((0, -1, 0), (2, 1, 2))%Z;;
       BroadPhaseSystem.removeProxyCollisionShape proxy4) world4 =
        Some (tt, w', [])
      ∧ mProxyShapesComponents w' = components4
      ∧ mMovedShapes (mBroadPhaseSystem w') = [1%Z].
Proof.
  assert ((addObject tree0 ((0, -1, 0), (2, 1, 2))%Z proxy4).1 ≠ (-1)%Z)
    as Hnode by (simpl; lia).
  do 3 (split; [reflexivity|]). split; [exact Hnode|].
  destruct (add_then_remove_proxy_shape world4 proxy4
              ((0, -1, 0), (2, 1, 2))%Z 3 row3 eq_refl eq_refl eq_refl Hnode)
    as (w' & Hrun & Hc & _ & _ & Hmoved & _).
  exists w'. split; [exact Hrun|]. split; [exact Hc | exact Hmoved].
Defined.

Lemma addProxyCollisionShape_then_sweep_witness :
  mMapEntityToComponentIndex components4 !! mEntity proxy4 = Some 3%N
  ∧ row components4 3 = Some row3
  ∧ rowBroadPhaseId row3 = (-1)%Z
  ∧ (addObject tree0 ((0, -1, 0), (2, 1, 2))%Z proxy4).1 ≠ (-1)%Z
  ∧ ∃ (w1 w2 : World) (calls : list Call),
      BroadPhaseSystem.addProxyCollisionShape proxy4
        ((0, -1, 0), (2, 1, 2))%Z world4 = Some (tt, w1, [])
      ∧ BroadPhaseSystem.computeOverlappingPairs w1 = Some (tt, w2, calls)
      ∧ Call_broadPhaseNotifyOverlappingPair proxy1 proxy4 ∈ calls.
Proof.
  assert ((addObject tree0 ((0, -1, 0), (2, 1, 2))%Z proxy4).1 ≠ (-1)%Z)
    as Hnode by (simpl; lia).
  do 3 (split; [reflexivity|]). split; [exact Hnode|].
  destruct (addProxyCollisionShape_then_sweep world4 proxy4
              ((0, -1, 0), (2, 1, 2))%Z 3 row3 eq_refl eq_refl eq_refl Hnode)
    as (w1 & w2 & calls & Hadd & Hsweep & Hpairs).
  exists w1, w2, calls. split; [exact Hadd|]. split; [exact Hsweep|].
  assert (Some (tt,
                set_mBroadPhaseSystem
                  {| mDynamicAABBTree :=
                       tree0 ++ [(((-1, -2, -1), (3, 2, 3))%Z, proxy4)];
                     mMovedShapes := [1%Z; 3%Z];
                     mPotentialPairs := [] |}
                  (set_mProxyShapesComponents
                     (withBroadPhaseId 3 3 components4) world4),
                @nil Call) = Some (tt, w1, @nil Call)) as Hw1
    by exact Hadd.
  injection Hw1 as Hw1.
  rewrite <- Hw1 in Hpairs.
  refine (Hpairs 0%Z _ _ _).
  - by left.
  - simpl. lia.
  - vm_compute. discriminate.
Defined.

End FurtherLatticeRuns.
